(** * schema-select: validation and coercion of values against JSON-Schema-like schemas

    A shallow embedding of the TypeScript sources
    [src/generic/validation.ts], [src/generic/coercion.ts],
    [src/generic/keywords.ts], [src/generic/options.ts],
    [src/json-schema/coercion.ts] and [src/json-schema/options.ts],
    followed by the properties of the specification that are checked against
    it.

    The file is organised as follows:
    - [Platform]: the part of the JavaScript run time the sources rely on
      (numbers, values, [typeof], the casts [Number], [String], [Boolean],
      [JSON.parse], [JSON.stringify], [structuredClone]);
    - [Generic]: the generic constraint and keyword engine;
    - [JSONSchema]: the JSON-schema bindings and the option splitter;
    - the properties, one section per claim. *)

From Stdlib Require Import List String Ascii Bool Arith ZArith QArith Qround Qabs Lia.
From Stdlib Require Import DecimalString PrimFloat SpecFloat FloatOps FloatAxioms.
Import ListNotations.

Local Open Scope list_scope.
Local Open Scope string_scope.
Local Open Scope Z_scope.

(* ================================================================== *)
(** * The JavaScript platform                                          *)
(* ================================================================== *)

Module Platform.

(** ** Numbers

    A JavaScript number is a binary64 floating-point value: a primitive
    float, with the arithmetic of IEEE 754 (rounding to nearest, ties to
    even), its two zeros, its infinities and [NaN]. *)

Definition number : Type := float.

(** What a number stands for: the exact rational value of a finite one. *)
Inductive numeric_value : Type :=
| NaN
| PosInf
| NegInf
| Fin (q : Q).

Definition Qlt_bool (a b : Q) : bool := negb (Qle_bool b a).

Definition Qis_zero (q : Q) : bool := Qeq_bool q 0%Q.

Definition Qis_integer (q : Q) : bool := Qeq_bool q (inject_Z (Qfloor q)).

(** Rounding towards zero, as the remainder operator needs it. *)
Definition Qtrunc (q : Q) : Z := if Qlt_bool q 0%Q then Qceiling q else Qfloor q.

(** [2 ^ e] as a rational, for any integer [e]. *)
Definition Qpow2 (e : Z) : Q :=
  if e <? 0 then (1 # Z.to_pos (2 ^ (- e)))%Q else inject_Z (2 ^ e).

Definition value_of (n : number) : numeric_value :=
  match Prim2SF n with
  | S754_nan => NaN
  | S754_infinity negative => if negative then NegInf else PosInf
  | S754_zero _ => Fin 0%Q
  | S754_finite negative m e =>
      let magnitude := (inject_Z (Zpos m) * Qpow2 e)%Q in
      Fin (if negative then (- magnitude)%Q else magnitude)
  end.

(** The number nearest to the rational [q], ties going to the even
    significand and what is out of range to an infinity; [negative_zero] is
    the sign of the result when [q] is zero. *)
Definition nearest (q : Q) (negative_zero : bool) : number :=
  match Qnum q with
  | Z0 => SF2Prim (S754_zero negative_zero)
  | Zpos n =>
      SF2Prim (SFdiv prec emax (S754_finite false n 0) (S754_finite false (Qden q) 0))
  | Zneg n =>
      SF2Prim (SFdiv prec emax (S754_finite true n 0) (S754_finite false (Qden q) 0))
  end.

(** The number written as the integer literal [z]. *)
Definition of_Z (z : Z) : number := nearest (inject_Z z) false.

Definition is_negative (n : number) : bool :=
  match Prim2SF n with
  | S754_zero negative | S754_infinity negative | S754_finite negative _ _ => negative
  | S754_nan => false
  end.

Definition isNaN (n : number) : bool :=
  match value_of n with NaN => true | _ => false end.

Definition NEGATIVE_INFINITY : number := neg_infinity.

Definition POSITIVE_INFINITY : number := infinity.

(** [a < b] and [a > b]: every comparison with [NaN] is false. *)
Definition num_lt (a b : number) : bool :=
  match value_of a, value_of b with
  | NaN, _ | _, NaN => false
  | NegInf, NegInf => false
  | NegInf, _ => true
  | _, NegInf => false
  | PosInf, _ => false
  | Fin _, PosInf => true
  | Fin x, Fin y => Qlt_bool x y
  end.

Definition num_gt (a b : number) : bool := num_lt b a.

(** [a === b] on numbers: [NaN] differs from itself, the two zeros are
    equal. *)
Definition num_strict_eq (a b : number) : bool :=
  match value_of a, value_of b with
  | PosInf, PosInf | NegInf, NegInf => true
  | Fin x, Fin y => Qeq_bool x y
  | _, _ => false
  end.

(** Unary minus, [a - b], [a * b] and [a / b]. *)
Definition num_neg (a : number) : number := PrimFloat.opp a.

Definition num_sub (a b : number) : number := PrimFloat.sub a b.

Definition num_mul (a b : number) : number := PrimFloat.mul a b.

Definition num_div (a b : number) : number := PrimFloat.div a b.

(** [a % b]: the remainder of the division truncated towards zero, which
    is always a number and has the sign of the dividend. *)
Definition num_rem (a b : number) : number :=
  match value_of a, value_of b with
  | NaN, _ | _, NaN => nan
  | (PosInf | NegInf), _ => nan
  | Fin x, (PosInf | NegInf) => a
  | Fin x, Fin y =>
      if Qis_zero y then nan
      else nearest (x - y * inject_Z (Qtrunc (x / y)))%Q (is_negative a)
  end.

(** [Math.round]: the nearest integer, halves going up; a number that is
    an integer already is returned as it is. *)
Definition Math_round (a : number) : number :=
  match value_of a with
  | Fin q =>
      if Qis_integer q then a
      else nearest (inject_Z (Qfloor (q + (1 # 2))%Q)) (is_negative a)
  | _ => a
  end.

(** ** Values ([any])

    The values are those of JSON and [undefined]: [undefined], [null],
    booleans, numbers, strings, arrays and plain objects whose properties
    hold such values.  Functions, symbols and bigints are not among them:
    what is proved for every [any] is proved for these values, and says
    nothing of a function, a symbol or a bigint handed to the code.

    Objects and arrays carry the address they live at, so that [===] can
    tell two equal-looking objects apart.  The properties of an object are
    listed in enumeration order.  The elements of an array are its indexed
    slots; a hole of a sparse array reads as [undefined] and is kept as
    such. *)

Definition loc := nat.

#[local] Unset Elimination Schemes.

Inductive any : Type :=
| VUndefined
| VNull
| VBool (b : bool)
| VNum (n : number)
| VStr (s : string)
| VArr (l : loc) (elems : list any)
| VObj (l : loc) (props : list (string * any)).

#[local] Set Elimination Schemes.

Definition num (z : Z) : any := VNum (of_Z z).

(** [typeof v]. *)
Definition typeof (v : any) : string :=
  match v with
  | VUndefined => "undefined"
  | VNull | VArr _ _ | VObj _ _ => "object"
  | VBool _ => "boolean"
  | VNum _ => "number"
  | VStr _ => "string"
  end.

(** [v == null]: true of [null] and [undefined] only. *)
Definition is_nullish (v : any) : bool :=
  match v with VUndefined | VNull => true | _ => false end.

(** [Array.isArray v]. *)
Definition Array_isArray (v : any) : bool :=
  match v with VArr _ _ => true | _ => false end.

(** [a === b]: by value on primitives, by address on objects and arrays. *)
Definition strict_eq (a b : any) : bool :=
  match a, b with
  | VUndefined, VUndefined | VNull, VNull => true
  | VBool x, VBool y => Bool.eqb x y
  | VNum x, VNum y => num_strict_eq x y
  | VStr x, VStr y => String.eqb x y
  | VArr l _, VArr l' _ | VObj l _, VObj l' _ => Nat.eqb l l'
  | _, _ => false
  end.

(** ** Decimal digits and numeric strings *)

Definition ascii_code (c : ascii) : Z := Z.of_nat (nat_of_ascii c).

(** The value of [c] as a digit in the given base, if it is one. *)
Definition digit_value (base : Z) (c : ascii) : option Z :=
  let n := ascii_code c in
  let d :=
    if (48 <=? n) && (n <=? 57) then n - 48
    else if (97 <=? n) && (n <=? 122) then n - 87
    else if (65 <=? n) && (n <=? 90) then n - 55
    else base in
  if d <? base then Some d else None.

(** Reads the longest prefix of digits: their value, their count, the rest. *)
Fixpoint read_digits (base : Z) (acc : Z) (count : nat) (s : string)
  : Z * nat * string :=
  match s with
  | String c rest =>
      match digit_value base c with
      | Some d => read_digits base (acc * base + d) (S count) rest
      | None => (acc, count, s)
      end
  | EmptyString => (acc, count, s)
  end.

(** [10 ^ e] as a rational, for any integer [e]. *)
Definition Qpow10 (e : Z) : Q :=
  if e <? 0 then (1 # Z.to_pos (10 ^ (- e)))%Q else inject_Z (10 ^ e).

(** An optional exponent part [e+ddd]: the exponent and what follows, or
    nothing when [s] starts with an [e] that no digit follows. *)
Definition read_exponent (s : string) : option (Z * string) :=
  match s with
  | String c rest =>
      if (ascii_code c =? 101) || (ascii_code c =? 69) then
        let '(negative, digits) :=
          match rest with
          | String "+"%char r => (false, r)
          | String "-"%char r => (true, r)
          | _ => (false, rest)
          end in
        match read_digits 10 0 0%nat digits with
        | (_, O, _) => None
        | (e, _, rest') => Some (if negative then - e else e, rest')
        end
      else Some (0, s)
  | EmptyString => Some (0, s)
  end.

(** An unsigned decimal literal [ddd.ddde+dd]; [dot_needs_digits] is the
    JSON rule that a point is followed by a digit, [lead_needs_digits] the
    JSON rule that a digit precedes the point. *)
Definition read_decimal (lead_needs_digits dot_needs_digits : bool) (s : string)
  : option (Q * string) :=
  let '(int_part, int_count, after_int) := read_digits 10 0 0%nat s in
  let '(frac_part, frac_count, after_frac, has_dot) :=
    match after_int with
    | String "."%char r =>
        let '(f, n, r') := read_digits 10 0 0%nat r in (f, n, r', true)
    | _ => (0, O, after_int, false)
    end in
  let malformed :=
    ((int_count =? 0)%nat && ((frac_count =? 0)%nat || lead_needs_digits))
    || (has_dot && (frac_count =? 0)%nat && dot_needs_digits) in
  if malformed then None
  else
    match read_exponent after_frac with
    | None => None
    | Some (e, rest) =>
        let mantissa := int_part * 10 ^ Z.of_nat frac_count + frac_part in
        Some ((inject_Z mantissa * Qpow10 (e - Z.of_nat frac_count))%Q, rest)
    end.

(** White space of a numeric string, among the characters of this model. *)
Definition is_str_whitespace (c : ascii) : bool :=
  let n := ascii_code c in
  ((9 <=? n) && (n <=? 13)) || (n =? 32) || (n =? 160).

Fixpoint trim_left (s : string) : string :=
  match s with
  | String c rest => if is_str_whitespace c then trim_left rest else s
  | EmptyString => s
  end.

Fixpoint string_rev_append (s acc : string) : string :=
  match s with
  | String c rest => string_rev_append rest (String c acc)
  | EmptyString => acc
  end.

Definition string_rev (s : string) : string := string_rev_append s "".

Definition trim (s : string) : string :=
  string_rev (trim_left (string_rev (trim_left s))).

(** A non-decimal integer literal [0x..], [0o..], [0b..], taken whole. *)
Definition read_non_decimal (s : string) : option Z :=
  match s with
  | String "0"%char (String p digits) =>
      let n := ascii_code p in
      let base :=
        if (n =? 120) || (n =? 88) then 16
        else if (n =? 111) || (n =? 79) then 8
        else if (n =? 98) || (n =? 66) then 2
        else 0 in
      if base =? 0 then None
      else
        match read_digits base 0 0%nat digits with
        | (_, O, _) => None
        | (z, _, EmptyString) => Some z
        | _ => None
        end
  | _ => None
  end.

Definition read_unsigned_decimal (s : string) : number :=
  if String.eqb s "Infinity" then POSITIVE_INFINITY
  else
    match read_decimal false false s with
    | Some (q, EmptyString) => nearest q false
    | _ => nan
    end.

(** The cast of a string to a number ([Number(s)] for a string [s]). *)
Definition StringToNumber (s : string) : number :=
  let t := trim s in
  match t with
  | EmptyString => of_Z 0
  | String sign rest =>
      match read_non_decimal t with
      | Some z => of_Z z
      | None =>
          if Ascii.eqb sign "+"%char then read_unsigned_decimal rest
          else if Ascii.eqb sign "-"%char then num_neg (read_unsigned_decimal rest)
          else read_unsigned_decimal t
      end
  end.

(** ** Numbers as strings ([Number::toString], radix 10) *)

Definition digits_of_Z (z : Z) : string :=
  NilZero.string_of_uint (N.to_uint (Z.to_N z)).

Definition string_length (s : string) : Z := Z.of_nat (String.length s).

Fixpoint zeros (n : nat) : string :=
  match n with O => "" | S n' => String "0"%char (zeros n') end.

Fixpoint strip_leading_zeros (s : string) : string :=
  match s with
  | String "0"%char rest => strip_leading_zeros rest
  | _ => s
  end.

Definition strip_trailing_zeros (s : string) : string :=
  string_rev (strip_leading_zeros (string_rev s)).

(** The decimal with [k] digits nearest to [q], ties going to the even one,
    when it reads back as [x]: [s * 10 ^ (n - k)], given as the digits [s]
    and the exponent [n - k]. *)
Definition reads_back (x : number) (s : Z) (e : Z) : bool :=
  PrimFloat.eqb (nearest (inject_Z s * Qpow10 e) false) x.

Definition candidate (x : number) (q : Q) (n k : Z) : option (Z * Z) :=
  let e := n - k in
  let low := Qfloor (q * Qpow10 (- e))%Q in
  let high := low + 1 in
  let low_first :=
    match Qcompare (Qabs (inject_Z low * Qpow10 e - q)) (Qabs (inject_Z high * Qpow10 e - q)) with
    | Lt => true
    | Gt => false
    | Eq => Z.even low
    end in
  let first := if low_first then low else high in
  let second := if low_first then high else low in
  if (0 <? first) && reads_back x first e then Some (first, e)
  else if (0 <? second) && reads_back x second e then Some (second, e)
  else None.

(** The shortest decimal that reads back as [x], looked for among those of
    [k] digits and more; seventeen digits tell any two numbers apart. *)
Fixpoint shortest (fuel : nat) (x : number) (q : Q) (n k : Z) : Z * Z :=
  match fuel with
  | O => (Qfloor (q * Qpow10 (k - n))%Q, n - k)
  | S fuel' =>
      match candidate x q n k with
      | Some found => found
      | None => shortest fuel' x q n (k + 1)
      end
  end.

(** The place of the decimal point of a positive [q]: the [n] with
    [10 ^ (n - 1) <= q < 10 ^ n], reached from an estimate by the binary
    logarithm. *)
Fixpoint exponent_up (fuel : nat) (q : Q) (n : Z) : Z :=
  match fuel with
  | O => n
  | S fuel' => if Qle_bool (Qpow10 n) q then exponent_up fuel' q (n + 1) else n
  end.

Fixpoint exponent_down (fuel : nat) (q : Q) (n : Z) : Z :=
  match fuel with
  | O => n
  | S fuel' => if Qle_bool (Qpow10 (n - 1)) q then n else exponent_down fuel' q (n - 1)
  end.

Definition decimal_exponent (q : Q) : Z :=
  let estimate := (Z.log2 (Qnum q) - Z.log2 (Zpos (Qden q))) * 30103 / 100000 in
  exponent_down 8 q (exponent_up 8 q estimate).

(** A positive finite number [x] of value [q]: its significant digits [s]
    and the exponent [n] with [0.s * 10 ^ n] the shortest decimal that
    reads back as [x]. *)
Definition decimal_expansion (x : number) (q : Q) : string * Z :=
  let '(s, e) := shortest 17 x q (decimal_exponent q) 1 in
  let all := digits_of_Z s in
  (strip_trailing_zeros all, string_length all + e).

Definition format_decimal (s : string) (n : Z) : string :=
  let k := string_length s in
  if (k <=? n) && (n <=? 21) then s ++ zeros (Z.to_nat (n - k))
  else if (0 <? n) && (n <=? 21) then
    substring 0 (Z.to_nat n) s ++ "." ++ substring (Z.to_nat n) (Z.to_nat (k - n)) s
  else if (-6 <? n) && (n <=? 0) then "0." ++ zeros (Z.to_nat (- n)) ++ s
  else
    let e := n - 1 in
    let mantissa :=
      if k =? 1 then s
      else substring 0 1 s ++ "." ++ substring 1 (Z.to_nat (k - 1)) s in
    mantissa ++ "e" ++ (if e <? 0 then "-" else "+") ++ digits_of_Z (Z.abs e).

Definition Number_toString (n : number) : string :=
  match value_of n with
  | NaN => "NaN"
  | PosInf => "Infinity"
  | NegInf => "-Infinity"
  | Fin q =>
      if Qis_zero q then "0"
      else if Qlt_bool q 0%Q then
        let '(s, e) := decimal_expansion (num_neg n) (- q)%Q in
        "-" ++ format_decimal s e
      else
        let '(s, e) := decimal_expansion n q in format_decimal s e
  end.

(** ** The casts [String], [Number] and [Boolean] *)

(** The casts [String(v)] and [Number(v)] of an object look for its
    [toString] method.  A plain object inherits one, which gives
    ["[object Object]"]; an object with a property of its own named
    [toString] has a value there that cannot be called, and the cast throws
    a [TypeError].  An array joins the casts of its elements, and throws
    when one of them does. *)
Fixpoint cast_throws (v : any) : bool :=
  match v with
  | VObj _ props => existsb (fun p => String.eqb (fst p) "toString") props
  | VArr _ elems => existsb cast_throws elems
  | _ => false
  end.

(** [String(v)] when the cast does not throw ([cast_throws v] is [false]):
    an array joins its elements with commas, [null] and [undefined]
    elements giving the empty string. *)
Fixpoint ToString (v : any) : string :=
  match v with
  | VUndefined => "undefined"
  | VNull => "null"
  | VBool b => if b then "true" else "false"
  | VNum n => Number_toString n
  | VStr s => s
  | VArr _ elems =>
      (fix join (first : bool) (es : list any) : string :=
         match es with
         | [] => ""
         | e :: rest =>
             (if first then "" else ",")
             ++ (if is_nullish e then "" else ToString e)
             ++ join false rest
         end) true elems
  | VObj _ _ => "[object Object]"
  end.

(** [Number(v)] when the cast does not throw ([cast_throws v] is [false]):
    objects and arrays go through their string form. *)
Definition ToNumber (v : any) : number :=
  match v with
  | VUndefined => nan
  | VNull => of_Z 0
  | VBool b => if b then of_Z 1 else of_Z 0
  | VNum n => n
  | VStr s => StringToNumber s
  | VArr _ _ | VObj _ _ => StringToNumber (ToString v)
  end.

(** [Boolean(v)]. *)
Definition ToBoolean (v : any) : bool :=
  match v with
  | VUndefined | VNull => false
  | VBool b => b
  | VNum n =>
      match value_of n with
      | NaN => false
      | Fin q => negb (Qis_zero q)
      | _ => true
      end
  | VStr s => negb (String.eqb s "")
  | VArr _ _ | VObj _ _ => true
  end.

(** ** Properties of objects and arrays

    Only own properties are looked at: what an object inherits from
    [Object.prototype] or [Array.prototype] is not part of a [any]. *)

(** The index a property key denotes, when it is an array index: a
    canonical numeral below [2^32 - 1]. *)
Definition array_index_of_key (key : string) : option nat :=
  match read_digits 10 0 0%nat key with
  | (z, S _, EmptyString) =>
      if String.eqb (digits_of_Z z) key && (z <? 2 ^ 32 - 1)
      then Some (Z.to_nat z) else None
  | _ => None
  end.

Fixpoint assoc_get {A : Type} (key : string) (props : list (string * A))
  : option A :=
  match props with
  | [] => None
  | (k, v) :: rest => if String.eqb k key then Some v else assoc_get key rest
  end.

(** [v[key]] for an object or an array [v]. *)
Definition get_property (v : any) (key : string) : any :=
  match v with
  | VObj _ props =>
      match assoc_get key props with Some x => x | None => VUndefined end
  | VArr _ elems =>
      if String.eqb key "length"
      then VNum (of_Z (Z.of_nat (List.length elems)))
      else
        match array_index_of_key key with
        | Some i => nth i elems VUndefined
        | None => VUndefined
        end
  | _ => VUndefined
  end.

(** [key in v] for an object or an array [v], as far as the properties of
    [v] itself decide it: the members [v] inherits ([toString],
    [constructor], and for an array [map], [push] and so on) are not
    looked at.  The properties proved below either never ask for such a
    key or exclude it by hypothesis. *)
Definition has_property (v : any) (key : string) : bool :=
  match v with
  | VObj _ props =>
      match assoc_get key props with Some _ => true | None => false end
  | VArr _ elems =>
      String.eqb key "length"
      || match array_index_of_key key with
         | Some i => (i <? List.length elems)%nat
         | None => false
         end
  | _ => false
  end.

(** The keys [for (const key in v)] goes through, in order. *)
Definition enumerable_keys (v : any) : list string :=
  match v with
  | VObj _ props => map fst props
  | VArr _ elems =>
      map (fun i => digits_of_Z (Z.of_nat i)) (seq 0 (List.length elems))
  | _ => []
  end.

(** [elems[i] = v]: the array grows as needed, the slots in between
    reading [undefined]. *)
Definition array_set (elems : list any) (i : nat) (v : any) : list any :=
  (firstn i (elems ++ repeat VUndefined (i - List.length elems))
   ++ v :: skipn (S i) elems)%list.

(** [array[index] = v] for a number [index]: an index that is no array
    index names an ordinary property of the array object, which is not one
    of its elements. *)
Definition array_assign (elems : list any) (index : number) (v : any)
  : list any :=
  match array_index_of_key (Number_toString index) with
  | Some i => array_set elems i v
  | None => elems
  end.

(** [object[key] = v]: an existing property keeps its place; a new one goes
    after the array-index keys below it when it is an array index, last
    otherwise. *)
Fixpoint object_set (props : list (string * any)) (key : string) (v : any)
  : list (string * any) :=
  match props with
  | [] => [(key, v)]
  | (k, x) :: rest =>
      if String.eqb k key then (k, v) :: rest
      else
        match array_index_of_key key, array_index_of_key k with
        | Some i, Some j =>
            if (i <? j)%nat && negb (existsb (fun p => String.eqb (fst p) key) rest)
            then (key, v) :: props
            else (k, x) :: object_set rest key v
        | Some i, None =>
            if negb (existsb (fun p => String.eqb (fst p) key) rest)
            then (key, v) :: props
            else (k, x) :: object_set rest key v
        | None, _ => (k, x) :: object_set rest key v
        end
  end.

(** ** Allocation

    Creating an object or an array takes a fresh address.  The code that
    does so runs in a state monad over the next free address. *)

Definition Alloc (A : Type) : Type := loc -> A * loc.

Definition ret {A : Type} (a : A) : Alloc A := fun next => (a, next).

Definition bind {A B : Type} (c : Alloc A) (k : A -> Alloc B) : Alloc B :=
  fun next => let '(a, next') := c next in k a next'.

Definition fresh : Alloc loc := fun next => (next, S next).

Notation "x <- c ;; k" := (bind c (fun x => k))
  (at level 61, c at next level, right associativity).

(** A new array [[e1, ..., en]] and a new object [{k1: v1, ...}]. *)
Definition new_array (elems : list any) : Alloc any :=
  l <- fresh ;; ret (VArr l elems).

Definition new_object (props : list (string * any)) : Alloc any :=
  l <- fresh ;; ret (VObj l props).

(** ** [JSON.stringify] *)

Definition dquote : string := String (ascii_of_nat 34) "".

Definition hex_digit (n : Z) : ascii :=
  ascii_of_nat (Z.to_nat (if n <? 10 then 48 + n else 87 + n)).

Definition quote_char (c : ascii) : string :=
  let n := ascii_code c in
  if n =? 34 then String "\"%char dquote
  else if n =? 92 then "\\"
  else if n =? 8 then "\b"
  else if n =? 9 then "\t"
  else if n =? 10 then "\n"
  else if n =? 12 then "\f"
  else if n =? 13 then "\r"
  else if n <? 32 then
    "\u00" ++ String (hex_digit (n / 16)) (String (hex_digit (n mod 16)) "")
  else String c "".

Fixpoint quote_chars (s : string) : string :=
  match s with
  | String c rest => quote_char c ++ quote_chars rest
  | EmptyString => ""
  end.

Definition JSON_quote (s : string) : string := dquote ++ quote_chars s ++ dquote.

(** The text of a value, or nothing for [undefined], which has none. *)
Fixpoint serialize (v : any) : option string :=
  match v with
  | VUndefined => None
  | VNull => Some "null"
  | VBool b => Some (if b then "true" else "false")
  | VNum n =>
      Some match value_of n with
           | Fin _ => Number_toString n
           | _ => "null"
           end
  | VStr s => Some (JSON_quote s)
  | VArr _ elems =>
      Some ("["
            ++ (fix items (first : bool) (es : list any) : string :=
                  match es with
                  | [] => ""
                  | e :: rest =>
                      (if first then "" else ",")
                      ++ match serialize e with Some t => t | None => "null" end
                      ++ items false rest
                  end) true elems
            ++ "]")
  | VObj _ props =>
      Some ("{"
            ++ (fix members (first : bool) (ps : list (string * any)) : string :=
                  match ps with
                  | [] => ""
                  | (k, x) :: rest =>
                      match serialize x with
                      | Some t =>
                          (if first then "" else ",")
                          ++ JSON_quote k ++ ":" ++ t ++ members false rest
                      | None => members first rest
                      end
                  end) true props
            ++ "}")
  end.

(** [JSON.stringify(v)]: a string, or [undefined] when [v] is. *)
Definition JSON_stringify (v : any) : any :=
  match serialize v with
  | Some t => VStr t
  | None => VUndefined
  end.

(** ** [structuredClone]

    A copy at fresh addresses; an object met twice is copied once. *)

Fixpoint assoc_loc (l : loc) (memo : list (loc * any)) : option any :=
  match memo with
  | [] => None
  | (l', v) :: rest => if Nat.eqb l l' then Some v else assoc_loc l rest
  end.

(** A copier for values, the copies made so far, the next free address. *)
Definition copier : Type :=
  any -> list (loc * any) -> loc -> any * list (loc * any) * loc.

(** The elements of an array copied one after the other. *)
Fixpoint clone_elements (copy : copier) (es : list any)
  (memo : list (loc * any)) (next : loc)
  : list any * list (loc * any) * loc :=
  match es with
  | [] => ([], memo, next)
  | e :: rest =>
      let '(e', memo1, next1) := copy e memo next in
      let '(rest', memo2, next2) := clone_elements copy rest memo1 next1 in
      (e' :: rest', memo2, next2)
  end.

(** The properties of an object copied one after the other. *)
Fixpoint clone_properties (copy : copier) (ps : list (string * any))
  (memo : list (loc * any)) (next : loc)
  : list (string * any) * list (loc * any) * loc :=
  match ps with
  | [] => ([], memo, next)
  | p :: rest =>
      let '(x', memo1, next1) := copy (snd p) memo next in
      let '(rest', memo2, next2) := clone_properties copy rest memo1 next1 in
      ((fst p, x') :: rest', memo2, next2)
  end.

Fixpoint clone (v : any) (memo : list (loc * any)) (next : loc)
  : any * list (loc * any) * loc :=
  match v with
  | VArr l elems =>
      match assoc_loc l memo with
      | Some copy => (copy, memo, next)
      | None =>
          let '(elems', memo', next') :=
            clone_elements clone elems memo (S next) in
          let copy := VArr next elems' in
          (copy, (l, copy) :: memo', next')
      end
  | VObj l props =>
      match assoc_loc l memo with
      | Some copy => (copy, memo, next)
      | None =>
          let '(props', memo', next') :=
            clone_properties clone props memo (S next) in
          let copy := VObj next props' in
          (copy, (l, copy) :: memo', next')
      end
  | primitive => (primitive, memo, next)
  end.

Definition structuredClone (v : any) : Alloc any :=
  fun next => let '(copy, _, next') := clone v [] next in (copy, next').

(** ** [JSON.parse]

    A recursive-descent reader of the JSON grammar.  [None] stands for the
    [SyntaxError] the platform throws.  Strings being made of the characters
    below 256, a [\u] escape beyond them is not read. *)

Definition is_json_whitespace (c : ascii) : bool :=
  let n := ascii_code c in
  (n =? 32) || (n =? 9) || (n =? 10) || (n =? 13).

Fixpoint skip_ws (s : string) : string :=
  match s with
  | String c rest => if is_json_whitespace c then skip_ws rest else s
  | EmptyString => s
  end.

(** [-? (0 | [1-9] digits) (. digits)? ([eE] [+-]? digits)?] *)
Definition parse_number (s : string) : option (number * string) :=
  let '(negative, body) :=
    match s with
    | String "-"%char r => (true, r)
    | _ => (false, s)
    end in
  let leading_zero :=
    match body with
    | String "0"%char (String d _) =>
        match digit_value 10 d with Some _ => true | None => false end
    | _ => false
    end in
  if leading_zero then None
  else
    match read_decimal true true body with
    | Some (q, rest) =>
        Some (if negative then num_neg (nearest q false) else nearest q false, rest)
    | None => None
    end.

(** The characters of a string literal, after its opening quote. *)
Fixpoint parse_string (s : string) : option (string * string) :=
  match s with
  | EmptyString => None
  | String c rest =>
      let n := ascii_code c in
      if n =? 34 then Some ("", rest)
      else if n <? 32 then None
      else if n =? 92 then
        match rest with
        | String e rest' =>
            let m := ascii_code e in
            let plain (code : nat) :=
              match parse_string rest' with
              | Some (t, r) => Some (String (ascii_of_nat code) t, r)
              | None => None
              end in
            if m =? 34 then plain 34%nat
            else if m =? 92 then plain 92%nat
            else if m =? 47 then plain 47%nat
            else if m =? 98 then plain 8%nat
            else if m =? 102 then plain 12%nat
            else if m =? 110 then plain 10%nat
            else if m =? 114 then plain 13%nat
            else if m =? 116 then plain 9%nat
            else if m =? 117 then
              match rest' with
              | String h1 (String h2 (String h3 (String h4 rest'')))  =>
                  match digit_value 16 h1, digit_value 16 h2,
                        digit_value 16 h3, digit_value 16 h4 with
                  | Some 0, Some 0, Some d3, Some d4 =>
                      match parse_string rest'' with
                      | Some (t, r) =>
                          Some (String (ascii_of_nat (Z.to_nat (16 * d3 + d4))) t, r)
                      | None => None
                      end
                  | _, _, _, _ => None
                  end
              | _ => None
              end
            else None
        | EmptyString => None
        end
      else
        match parse_string rest with
        | Some (t, r) => Some (String c t, r)
        | None => None
        end
  end.

Definition parse_literal (word : string) (v : any) (s : string)
  : option (any * string) :=
  if String.prefix word s
  then Some (v, substring (String.length word) (String.length s - String.length word) s)
  else None.

Definition parser : Type := string -> loc -> option (any * string * loc).

(** The elements of an array after [[], [s] standing at an element. *)
Fixpoint parse_elements (parse : parser) (fuel : nat) (acc : list any)
  (s : string) (next : loc) : option (list any * string * loc) :=
  match fuel with
  | O => None
  | S fuel' =>
      match parse s next with
      | Some (v, rest, next') =>
          match skip_ws rest with
          | String ","%char r => parse_elements parse fuel' (v :: acc) r next'
          | String "]"%char r => Some (rev (v :: acc), r, next')
          | _ => None
          end
      | None => None
      end
  end.

(** The members of an object after [{], [s] standing at a key.  A key met
    again replaces the value it had. *)
Fixpoint parse_members (parse : parser) (fuel : nat)
  (acc : list (string * any)) (s : string) (next : loc)
  : option (list (string * any) * string * loc) :=
  match fuel with
  | O => None
  | S fuel' =>
      match skip_ws s with
      | String q after_quote =>
          if ascii_code q =? 34 then
            match parse_string after_quote with
            | Some (key, rest) =>
                match skip_ws rest with
                | String ":"%char r =>
                    match parse r next with
                    | Some (v, rest', next') =>
                        let acc' := object_set acc key v in
                        match skip_ws rest' with
                        | String ","%char r' =>
                            parse_members parse fuel' acc' r' next'
                        | String "}"%char r' => Some (acc', r', next')
                        | _ => None
                        end
                    | None => None
                    end
                | _ => None
                end
            | None => None
            end
          else None
      | EmptyString => None
      end
  end.

Fixpoint parse_value (fuel : nat) (s : string) (next : loc)
  : option (any * string * loc) :=
  match fuel with
  | O => None
  | S fuel' =>
      match skip_ws s with
      | EmptyString => None
      | String c rest as t =>
          let n := ascii_code c in
          if n =? 123 then
            match skip_ws rest with
            | String "}"%char r => Some (VObj next [], r, S next)
            | _ =>
                match parse_members (parse_value fuel') fuel' [] rest (S next) with
                | Some (props, r, next') => Some (VObj next props, r, next')
                | None => None
                end
            end
          else if n =? 91 then
            match skip_ws rest with
            | String "]"%char r => Some (VArr next [], r, S next)
            | _ =>
                match parse_elements (parse_value fuel') fuel' [] rest (S next) with
                | Some (elems, r, next') => Some (VArr next elems, r, next')
                | None => None
                end
            end
          else if n =? 34 then
            match parse_string rest with
            | Some (str, r) => Some (VStr str, r, next)
            | None => None
            end
          else if n =? 116 then
            option_map (fun '(v, r) => (v, r, next)) (parse_literal "true" (VBool true) t)
          else if n =? 102 then
            option_map (fun '(v, r) => (v, r, next)) (parse_literal "false" (VBool false) t)
          else if n =? 110 then
            option_map (fun '(v, r) => (v, r, next)) (parse_literal "null" VNull t)
          else
            match parse_number t with
            | Some (x, r) => Some (VNum x, r, next)
            | None => None
            end
      end
  end.

(** [JSON.parse(text)]: the value read, or [None] for a [SyntaxError]. *)
Definition JSON_parse (text : string) : Alloc (option any) :=
  fun next =>
    match parse_value (S (String.length text)) text next with
    | Some (v, rest, next') =>
        match skip_ws rest with
        | EmptyString => (Some v, next')
        | _ => (None, next)
        end
    | None => (None, next)
    end.

(** ** Exceptions

    A call either returns or throws; [TypeError] is the one error the
    modelled code can raise and not catch. *)

Inductive completion (A : Type) : Type :=
| Normal (a : A)
| Throw (error : string).

Arguments Normal {A} a.
Arguments Throw {A} error.

(** ** Plain objects used as tables

    Reading [table[key]] under a key that comes from the data finds an own
    entry, or a member every object inherits from [Object.prototype], or
    nothing. *)

Definition Object_prototype_keys : list string :=
  [ "constructor"; "hasOwnProperty"; "isPrototypeOf"; "propertyIsEnumerable";
    "toLocaleString"; "toString"; "valueOf"; "__proto__";
    "__defineGetter__"; "__defineSetter__"; "__lookupGetter__";
    "__lookupSetter__" ].

Inductive lookup (A : Type) : Type :=
| Own (a : A)
| Inherited
| Absent.

Arguments Own {A} a.
Arguments Inherited {A}.
Arguments Absent {A}.

Definition table_get {A : Type} (table : list (string * A)) (key : string)
  : lookup A :=
  match assoc_get key table with
  | Some a => Own a
  | None =>
      if existsb (String.eqb key) Object_prototype_keys then Inherited
      else Absent
  end.

End Platform.

Import Platform.

(* ================================================================== *)
(** * The generic engine ([src/generic])                               *)
(* ================================================================== *)

(** ** [validation.ts] *)

Definition Convert (From To : Type) : Type := From -> To.

(** A conversion that may create objects. *)
Definition Coerce : Type := Convert any (Alloc any).

Module ValidationParser.
Record t (ValidationType : Type) : Type := {
  isValid : Convert ValidationType bool;
  getValid : ValidationType;
  rateValidity : Convert ValidationType number
}.
Arguments isValid {ValidationType} _ _.
Arguments getValid {ValidationType} _.
Arguments rateValidity {ValidationType} _ _.
End ValidationParser.

Definition BooleanValidationParser : ValidationParser.t bool := {|
  ValidationParser.isValid := fun value => value;
  ValidationParser.getValid := true;
  ValidationParser.rateValidity := fun value => if value then of_Z 1 else of_Z 0
|}.

Record ErrorLog (ErrorType : Type) : Type := { errors : list ErrorType }.
Arguments errors {ErrorType} _.

Definition list_length {A : Type} (l : list A) : Z := Z.of_nat (List.length l).

Definition ErrorLogValidationParser (T : Type) : ValidationParser.t (ErrorLog T) := {|
  ValidationParser.isValid := fun value => list_length (errors value) <? 1;
  ValidationParser.getValid := {| errors := [] |};
  ValidationParser.rateValidity :=
    fun value => num_sub (of_Z 1) (of_Z (list_length (errors value)))
|}.

(** The loop of [mergeValidateSteps] from the step at position [i] on: the
    positions of the steps it calls, in order, and what it returns. *)
Fixpoint run_validate_steps {ValidationType : Type}
  (validationParser : ValidationParser.t ValidationType)
  (steps : list (Convert any ValidationType)) (i : nat) (value : any)
  : list nat * ValidationType :=
  match steps with
  | [] => ([], ValidationParser.getValid validationParser)
  | validate :: rest =>
      let validation := validate value in
      if negb (ValidationParser.isValid validationParser validation)
      then ([i], validation)
      else
        let '(calls, result) :=
          run_validate_steps validationParser rest (S i) value in
        (i :: calls, result)
  end.

Definition mergeValidateSteps {ValidationType : Type}
  (steps : list (Convert any ValidationType))
  (validationParser : ValidationParser.t ValidationType)
  : Convert any ValidationType :=
  fun value => snd (run_validate_steps validationParser steps 0 value).

(** ** [coercion.ts] *)

Fixpoint mergeCoerceSteps (steps : list Coerce) : Coerce :=
  fun value =>
    match steps with
    | [] => ret value
    | coerce :: rest =>
        converted <- coerce value ;; mergeCoerceSteps rest converted
    end.

Module ValueConstraint.
Record t (ValidationType : Type) : Type := {
  validate : Convert any ValidationType;
  coerce : option Coerce
}.
Arguments validate {ValidationType} _ _.
Arguments coerce {ValidationType} _.
End ValueConstraint.

(** [Required<ValueConstraint<any, boolean, ValueType>>]. *)
Module TypeEnforcer.
Record t : Type := {
  validate : Convert any bool;
  coerce : Coerce
}.
End TypeEnforcer.

Module SchemaEnforcer.
Record t (ValidationType : Type) : Type := {
  schema : any;
  validate : Convert any ValidationType;
  coerce : option Coerce
}.
Arguments schema {ValidationType} _.
Arguments validate {ValidationType} _ _.
Arguments coerce {ValidationType} _.
End SchemaEnforcer.

Definition echoValue (value : any) : Alloc any := ret value.

Module ValueTypeEnforcer.
Record t (ValueType : Type) : Type := {
  typeName : string;
  defaultValue : option ValueType;
  valueProperty : option string
}.
Arguments typeName {ValueType} _.
Arguments defaultValue {ValueType} _.
Arguments valueProperty {ValueType} _.

Definition validate {ValueType : Type} (this : t ValueType) (value : any)
  : bool :=
  String.eqb (typeof value) (typeName this).

(** [unwrap] reads the value property of an object or array that has it
    among its own properties; a value property that names an inherited
    member ([toString], say) is outside what [has_property] decides. *)
Definition unwrap {ValueType : Type} (this : t ValueType) (value : any)
  : any :=
  match valueProperty this with
  | Some property =>
      if String.eqb (typeof value) "object"
         && negb (is_nullish value)
         && has_property value property
      then get_property value property
      else value
  | None => value
  end.
End ValueTypeEnforcer.

(** An array and a plain object, as a default value holds them. *)
Definition array_data : Type := loc * list any.
Definition object_data : Type := loc * list (string * any).

Definition array_value (d : array_data) : any := VArr (fst d) (snd d).
Definition object_value (d : object_data) : any := VObj (fst d) (snd d).

Module ArrayEnforcer.
Definition t : Type := ValueTypeEnforcer.t array_data.

Definition new (defaultValue : option array_data)
  (valueProperty : option string) : t :=
  {| ValueTypeEnforcer.typeName := "array";
     ValueTypeEnforcer.defaultValue := defaultValue;
     ValueTypeEnforcer.valueProperty := valueProperty |}.

Definition validate (this : t) (value : any) : bool := Array_isArray value.

(** The array rebuilt from the keys of a plain object. *)
Definition from_keys (unwrapped : any) : list any :=
  fold_left
    (fun values key =>
       let index := ToNumber (VStr key) in
       if negb (isNaN index)
       then array_assign values index (get_property unwrapped key)
       else values)
    (enumerable_keys unwrapped) [].

Definition coerce (this : t) (value : any) : Alloc any :=
  let unwrapped := ValueTypeEnforcer.unwrap this value in
  let otherwise : Alloc any :=
    match ValueTypeEnforcer.defaultValue this with
    | Some d =>
        if is_nullish unwrapped then structuredClone (array_value d)
        else new_array [unwrapped]
    | None => new_array [unwrapped]
    end in
  match unwrapped with
  | VStr text =>
      parsed <- JSON_parse text ;;
      match parsed with
      | Some (VArr l elems) => ret (VArr l elems)
      | _ => otherwise
      end
  | VArr _ _ => ret unwrapped
  | VObj _ _ =>
      l <- fresh ;; ret (VArr l (from_keys unwrapped))
  | _ => otherwise
  end.
End ArrayEnforcer.

Module BooleanEnforcer.
Definition t : Type := ValueTypeEnforcer.t bool.

Definition new (defaultValue : option bool) (valueProperty : option string)
  : t :=
  {| ValueTypeEnforcer.typeName := "boolean";
     ValueTypeEnforcer.defaultValue := defaultValue;
     ValueTypeEnforcer.valueProperty := valueProperty |}.

Definition validate (this : t) : any -> bool :=
  ValueTypeEnforcer.validate this.

Definition coerce (this : t) (value : any) : bool :=
  let unwrapped := ValueTypeEnforcer.unwrap this value in
  match ValueTypeEnforcer.defaultValue this with
  | Some d => if is_nullish unwrapped then d else ToBoolean unwrapped
  | None => ToBoolean unwrapped
  end.
End BooleanEnforcer.

Module NumberEnforcer.
Definition t : Type := ValueTypeEnforcer.t number.

Definition new (defaultValue : option number)
  (valueProperty : option string) : t :=
  {| ValueTypeEnforcer.typeName := "number";
     ValueTypeEnforcer.defaultValue := defaultValue;
     ValueTypeEnforcer.valueProperty := valueProperty |}.

Definition validate (this : t) : any -> bool :=
  ValueTypeEnforcer.validate this.

Definition coerce (this : t) (value : any) : number :=
  let unwrapped := ValueTypeEnforcer.unwrap this value in
  let num := ToNumber unwrapped in
  if isNaN num then
    match ValueTypeEnforcer.defaultValue this with
    | Some d => d
    | None => of_Z 0
    end
  else num.
End NumberEnforcer.

Module SteppedNumberEnforcer.
Record t : Type := {
  super : NumberEnforcer.t;
  step : number
}.

(** [step] is [1] when the caller gives none. *)
Definition new (defaultValue : option number) (step : option number)
  (valueProperty : option string) : t :=
  {| super := NumberEnforcer.new defaultValue valueProperty;
     step := match step with Some s => s | None => of_Z 1 end |}.

Definition validate (this : t) (value : any) : bool :=
  match value with
  | VNum n =>
      num_strict_eq (step this) (of_Z 0)
      || num_strict_eq (num_rem n (step this)) (of_Z 0)
  | _ => false
  end.

Definition coerce (this : t) (value : any) : number :=
  let num := NumberEnforcer.coerce (super this) value in
  if negb (num_strict_eq (step this) (of_Z 0))
  then num_mul (Math_round (num_div num (step this))) (step this)
  else num.
End SteppedNumberEnforcer.

Module ObjectEnforcer.
Definition t : Type := ValueTypeEnforcer.t object_data.

Definition new (defaultValue : option object_data)
  (valueProperty : option string) : t :=
  {| ValueTypeEnforcer.typeName := "object";
     ValueTypeEnforcer.defaultValue := defaultValue;
     ValueTypeEnforcer.valueProperty := valueProperty |}.

Definition validate (this : t) (value : any) : bool :=
  String.eqb (typeof value) "object"
  && negb (is_nullish value)
  && negb (Array_isArray value).

(** The object holding the defined elements of an array under their
    indices. *)
Definition from_elements (elems : list any) : list (string * any) :=
  fold_left
    (fun values i =>
       let indexedValue := nth i elems VUndefined in
       if negb (strict_eq indexedValue VUndefined)
       then object_set values (ToString (VNum (of_Z (Z.of_nat i))))
              indexedValue
       else values)
    (seq 0 (List.length elems)) [].

Definition coerce (this : t) (value : any) : Alloc any :=
  let otherwise : Alloc any :=
    match ValueTypeEnforcer.defaultValue this with
    | Some d => structuredClone (object_value d)
    | None =>
        match ValueTypeEnforcer.valueProperty this with
        | Some property => new_object [(property, value)]
        | None => new_object []
        end
    end in
  match value with
  | VStr text =>
      parsed <- JSON_parse text ;;
      match parsed with
      | Some object => if validate this object then ret object else otherwise
      | None => otherwise
      end
  | VArr _ elems => new_object (from_elements elems)
  | VObj _ _ => ret value
  | _ => otherwise
  end.
End ObjectEnforcer.

Module StringEnforcer.
Definition t : Type := ValueTypeEnforcer.t string.

Definition new (defaultValue : option string)
  (valueProperty : option string) : t :=
  {| ValueTypeEnforcer.typeName := "string";
     ValueTypeEnforcer.defaultValue := defaultValue;
     ValueTypeEnforcer.valueProperty := valueProperty |}.

Definition validate (this : t) : any -> bool :=
  ValueTypeEnforcer.validate this.

(** [JSON.stringify] throws on a cyclic structure only, and a [any] has
    no cycle: the [catch] branch, [String(unwrapped)], is never taken. *)
Definition coerce (this : t) (value : any) : any :=
  let unwrapped := ValueTypeEnforcer.unwrap this value in
  match unwrapped with
  | VStr _ => unwrapped
  | _ =>
      match ValueTypeEnforcer.defaultValue this with
      | Some d =>
          if is_nullish unwrapped then VStr d else JSON_stringify unwrapped
      | None => JSON_stringify unwrapped
      end
  end.
End StringEnforcer.

Definition both_objects (a b : any) : bool :=
  String.eqb (typeof a) "object" && negb (is_nullish a)
  && String.eqb (typeof b) "object" && negb (is_nullish b).

(** The first loop of [isEquivalentTo], over the keys of [a]: it returns
    at the first key whose values differ. *)
Fixpoint first_loop (equivalent_at : string -> option bool) (keys : list string)
  : option bool :=
  match keys with
  | [] => Some true
  | key :: rest =>
      match equivalent_at key with
      | Some true => first_loop equivalent_at rest
      | other => other
      end
  end.

(** The second loop, over the keys of [b], which skips the checked keys. *)
Fixpoint second_loop (equivalent_at : string -> option bool)
  (checkedKeys keys : list string) : option bool :=
  match keys with
  | [] => Some true
  | key :: rest =>
      if existsb (String.eqb key) checkedKeys
      then second_loop equivalent_at checkedKeys rest
      else
        match equivalent_at key with
        | Some true => second_loop equivalent_at (checkedKeys ++ [key])%list rest
        | other => other
        end
  end.

(** [isEquivalentTo], the recursion counted down by [fuel]; [None] when
    the fuel runs out before the answer is known. *)
Fixpoint isEquivalentTo_fuel (fuel : nat) (a b : any) : option bool :=
  match fuel with
  | O => None
  | S fuel' =>
      if both_objects a b then
        let equivalent_at (key : string) : option bool :=
          isEquivalentTo_fuel fuel' (get_property a key) (get_property b key) in
        match first_loop equivalent_at (enumerable_keys a) with
        | Some true =>
            match second_loop equivalent_at (enumerable_keys a) (enumerable_keys b) with
            | Some true => Some (strict_eq a b)
            | other => other
            end
        | other => other
        end
      else Some (strict_eq a b)
  end.

(** The nesting depth of a value. *)
Fixpoint depth (v : any) : nat :=
  match v with
  | VArr _ elems => S (list_max (map depth elems))
  | VObj _ props => S (list_max (map (fun p => depth (snd p)) props))
  | _ => O
  end.

(** [isEquivalentTo(a, b)]: the recursion follows [a] no deeper than [a]
    goes (see [isEquivalentTo_fuel_enough] below). *)
Definition isEquivalentTo (a b : any) : bool :=
  match isEquivalentTo_fuel (S (depth a)) a b with
  | Some answer => answer
  | None => false
  end.

Module StrictEqualityEnforcer.
Record t : Type := { value : any }.

Definition validate (this : t) (v : any) : bool := strict_eq v (value this).

Definition coerce (this : t) (_ : any) : any := value this.
End StrictEqualityEnforcer.

Module AnyValueEnforcer.
Definition validate (_ : any) : bool := true.
Definition coerce (v : any) : any := v.
End AnyValueEnforcer.

(** ** [keywords.ts] *)

Module KeywordError.
(** [Partial<KeywordError>]: a field left out reads [undefined]. *)
Record t : Type := {
  keyword : option string;
  value : any;
  target : any;
  priority : option number;
  coerce : option Coerce
}.
End KeywordError.

Definition KeywordErrorLog : Type := ErrorLog KeywordError.t.

Definition KeywordConstraint : Type := ValueConstraint.t KeywordErrorLog.

Module KeywordValueEnforcer.
Record t : Type := {
  keyword : string;
  value : any;
  check : Convert any bool;
  coerce : option Coerce;
  priority : number
}.

(** [priority] is [0] when the caller gives none. *)
Definition new (keyword : string) (value : any) (check : Convert any bool)
  (coerce : option Coerce) (priority : option number) : t :=
  {| keyword := keyword; value := value; check := check; coerce := coerce;
     priority := match priority with Some p => p | None => of_Z 0 end |}.

Definition validate (this : t) (target : any) : KeywordErrorLog :=
  if check this target
  then {| errors := [] |}
  else {| errors :=
           [ {| KeywordError.keyword := Some (keyword this);
                KeywordError.value := value this;
                KeywordError.target := target;
                KeywordError.priority := Some (priority this);
                KeywordError.coerce := coerce this |} ] |}.

Definition constraint (this : t) : KeywordConstraint :=
  {| ValueConstraint.validate := validate this;
     ValueConstraint.coerce := coerce this |}.
End KeywordValueEnforcer.

Module KeywordErrorLogValidationParser.
Definition rateValidity (value : KeywordErrorLog) : number :=
  if list_length (errors value) >? 0 then
    let maxErrorPriority :=
      fold_left
        (fun maxErrorPriority error =>
           match KeywordError.priority error with
           | Some p => if num_gt p maxErrorPriority then p else maxErrorPriority
           | None => maxErrorPriority
           end)
        (errors value) (of_Z 0) in
    num_neg maxErrorPriority
  else of_Z 1.

Definition new : ValidationParser.t KeywordErrorLog := {|
  ValidationParser.isValid :=
    ValidationParser.isValid (ErrorLogValidationParser KeywordError.t);
  ValidationParser.getValid :=
    ValidationParser.getValid (ErrorLogValidationParser KeywordError.t);
  ValidationParser.rateValidity := rateValidity
|}.
End KeywordErrorLogValidationParser.

Module KeywordEnforcerFork.
Record t : Type := {
  branches : list KeywordConstraint;
  defaultCoerce : Coerce
}.

(** [highestPriority] is a constant of the source: the loop never
    assigns it. *)
Definition getHighestPriorityError (errors : list KeywordError.t)
  : option KeywordError.t :=
  let highestPriority := NEGATIVE_INFINITY in
  fold_left
    (fun (match_ : option KeywordError.t) error =>
       let priority :=
         match KeywordError.priority error with
         | Some p => p
         | None => of_Z 0
         end in
       match match_ with
       | None => Some error
       | Some _ =>
           if num_gt priority highestPriority then Some error else match_
       end)
    errors None.

(** The loop of [validate], with its two variables. *)
Fixpoint validate_loop (branches : list KeywordConstraint) (target : any)
  (result : option KeywordErrorLog) (lowestPriority : number)
  : KeywordErrorLog :=
  match branches with
  | [] =>
      match result with
      | Some log => log
      | None => {| errors := [] |}
      end
  | branch :: rest =>
      let validation := ValueConstraint.validate branch target in
      if list_length (errors validation) <? 1 then validation
      else
        let priority :=
          match getHighestPriorityError (errors validation) with
          | Some error =>
              match KeywordError.priority error with
              | Some p => p
              | None => of_Z 0
              end
          | None => of_Z 0
          end in
        match result with
        | None => validate_loop rest target (Some validation) priority
        | Some _ =>
            if num_lt priority lowestPriority
            then validate_loop rest target (Some validation) priority
            else validate_loop rest target result lowestPriority
        end
  end.

Definition validate (this : t) (target : any) : KeywordErrorLog :=
  validate_loop (branches this) target None POSITIVE_INFINITY.

Definition coerce (this : t) (value : any) : Alloc any :=
  let validation := validate this value in
  match errors validation with
  | error :: _ =>
      match KeywordError.coerce error with
      | Some fix_up => fix_up value
      | None => defaultCoerce this value
      end
  | [] => defaultCoerce this value
  end.

Definition constraint (this : t) : KeywordConstraint :=
  {| ValueConstraint.validate := validate this;
     ValueConstraint.coerce := Some (coerce this) |}.
End KeywordEnforcerFork.

(** [table[key] = a] on a plain object used as a table. *)
Fixpoint table_set {A : Type} (table : list (string * A)) (key : string) (a : A)
  : list (string * A) :=
  match table with
  | [] => [(key, a)]
  | (k, x) :: rest =>
      if String.eqb k key then (k, a) :: rest
      else (k, x) :: table_set rest key a
  end.

Module KeywordEnforcerContext.
Record t : Type := { enforcers : list (string * KeywordConstraint) }.
Definition empty : t := {| enforcers := [] |}.
End KeywordEnforcerContext.

Module KeywordRule.
Record t : Type := {
  keyword : string;
  getEnforcerFor :
    any -> option KeywordEnforcerContext.t ->
    completion (option KeywordConstraint)
}.
End KeywordRule.

Module KeywordRulesEnforcer.
Record t : Type := {
  schema : any;
  validate : Convert any KeywordErrorLog;
  coerce : option Coerce;
  enforcers : list (string * KeywordConstraint)
}.
End KeywordRulesEnforcer.

Module SequentialKeywordEnforcerFactory.
Record t : Type := {
  rules : list KeywordRule.t;
  validationParser : ValidationParser.t KeywordErrorLog
}.

Definition new (rules : list KeywordRule.t) : t :=
  {| rules := rules;
     validationParser := ErrorLogValidationParser KeywordError.t |}.

(** The three things the loop over the rules fills in. *)
Record queues : Type := {
  enforcers : list (string * KeywordConstraint);
  validateQueue : list (Convert any KeywordErrorLog);
  coerceQueue : list Coerce
}.

Fixpoint collect (rules : list KeywordRule.t) (schema : any)
  (context : KeywordEnforcerContext.t) (q : queues) : completion queues :=
  match rules with
  | [] => Normal q
  | rule :: rest =>
      match KeywordRule.getEnforcerFor rule schema (Some context) with
      | Throw error => Throw error
      | Normal None => collect rest schema context q
      | Normal (Some ruleEnforcer) =>
          collect rest schema context
            {| validateQueue :=
                 (validateQueue q
                  ++ [fun value => ValueConstraint.validate ruleEnforcer value])%list;
               coerceQueue :=
                 match ValueConstraint.coerce ruleEnforcer with
                 | Some coerce =>
                     (coerceQueue q ++ [fun value => coerce value])%list
                 | None => coerceQueue q
                 end;
               enforcers :=
                 table_set (enforcers q) (KeywordRule.keyword rule) ruleEnforcer |}
      end
  end.

(** [context] is [{ enforcers: {} }] when the caller gives none. *)
Definition process (this : t) (schema : any)
  (context : option KeywordEnforcerContext.t)
  : completion KeywordRulesEnforcer.t :=
  let context :=
    match context with
    | Some c => c
    | None => KeywordEnforcerContext.empty
    end in
  match collect (rules this) schema context
          {| enforcers := []; validateQueue := []; coerceQueue := [] |} with
  | Throw error => Throw error
  | Normal q =>
      Normal
        {| KeywordRulesEnforcer.schema := schema;
           KeywordRulesEnforcer.validate :=
             mergeValidateSteps (validateQueue q) (validationParser this);
           KeywordRulesEnforcer.enforcers := enforcers q;
           KeywordRulesEnforcer.coerce :=
             if list_length (coerceQueue q) >? 0
             then Some (mergeCoerceSteps (coerceQueue q))
             else None |}
  end.
End SequentialKeywordEnforcerFactory.

Module TypeKeywordEnforcer.
Record t : Type := {
  keyword : string;
  value : any;
  check : Convert any bool;
  priority : number;
  coerceType : Coerce;
  rulesEnforcer : option KeywordRulesEnforcer.t
}.

(** The constructor receives a [rulesEnforcer] and does not store it: the
    field of the new object is left [undefined]. *)
Definition new (keyword : string) (value : any) (check : Convert any bool)
  (coerceType : Coerce) (rulesEnforcer : option KeywordRulesEnforcer.t)
  (priority : option number) : t :=
  {| keyword := keyword; value := value; check := check;
     priority := match priority with Some p => p | None => of_Z 0 end;
     coerceType := coerceType;
     rulesEnforcer := None |}.

Definition coerce (this : t) (value : any) : Alloc any :=
  typedValue <- coerceType this value ;;
  match rulesEnforcer this with
  | Some rules =>
      match KeywordRulesEnforcer.coerce rules with
      | Some coerce_rules => coerce_rules typedValue
      | None => ret typedValue
      end
  | None => ret typedValue
  end.

(** The object seen as the [KeywordValueEnforcer] it extends. *)
Definition super (this : t) : KeywordValueEnforcer.t :=
  {| KeywordValueEnforcer.keyword := keyword this;
     KeywordValueEnforcer.value := value this;
     KeywordValueEnforcer.check := check this;
     KeywordValueEnforcer.coerce := Some (coerce this);
     KeywordValueEnforcer.priority := priority this |}.

Definition validate (this : t) (target : any) : KeywordErrorLog :=
  let typeCheck := KeywordValueEnforcer.validate (super this) target in
  match rulesEnforcer this with
  | Some rules =>
      if list_length (errors typeCheck) <? 1
      then KeywordRulesEnforcer.validate rules target
      else typeCheck
  | None => typeCheck
  end.

Definition constraint (this : t) : KeywordConstraint :=
  {| ValueConstraint.validate := validate this;
     ValueConstraint.coerce := Some (coerce this) |}.
End TypeKeywordEnforcer.

Module TypeKeywordRule.
Record t : Type := {
  keyword : string;
  typeEnforcer : TypeEnforcer.t;
  typedKeywords : option SequentialKeywordEnforcerFactory.t
}.

Definition getEnforcerFor (this : t) (schema : any)
  (context : option KeywordEnforcerContext.t)
  : completion (option KeywordConstraint) :=
  let context :=
    match context with
    | Some c => c
    | None => KeywordEnforcerContext.empty
    end in
  let build (typedEnforcer : option KeywordRulesEnforcer.t) :=
    Normal (Some (TypeKeywordEnforcer.constraint
      (TypeKeywordEnforcer.new
         (keyword this)
         (get_property schema (keyword this))
         (fun value => TypeEnforcer.validate (typeEnforcer this) value)
         (fun value => TypeEnforcer.coerce (typeEnforcer this) value)
         typedEnforcer
         (Some (of_Z 100))))) in
  match typedKeywords this with
  | Some factory =>
      match SequentialKeywordEnforcerFactory.process factory schema (Some context) with
      | Throw error => Throw error
      | Normal typedEnforcer => build (Some typedEnforcer)
      end
  | None => build None
  end.

Definition rule (this : t) : KeywordRule.t :=
  {| KeywordRule.keyword := keyword this;
     KeywordRule.getEnforcerFor := getEnforcerFor this |}.
End TypeKeywordRule.

(** ** [options.ts] *)

Module LabeledValue.
Record t (T : Type) : Type := { label : string; value : T }.
Arguments label {T} _.
Arguments value {T} _.
End LabeledValue.

Fixpoint join (delimiter : string) (items : list string) : string :=
  match items with
  | [] => ""
  | [item] => item
  | item :: rest => item ++ delimiter ++ join delimiter rest
  end.

Definition array_elements (v : any) : list any :=
  match v with VArr _ elems => elems | _ => [] end.

Module KeyedSchemaLabeler.
Record t : Type := {
  keywords : list string;
  delimiter : string;
  translate : option (Convert string string);
  stringify : Convert any string
}.

(** [keywords] is empty and [delimiter] a slash when the caller gives
    none; [stringify] is [String]. *)
Definition new (keywords : option (list string)) (delimiter : option string)
  (translate : option (Convert string string)) : t :=
  {| keywords := match keywords with Some k => k | None => [] end;
     delimiter := match delimiter with Some d => d | None => "/" end;
     translate := translate;
     stringify := ToString |}.

Fixpoint process_keywords (this : t) (keywords : list string) (source : any)
  : string :=
  match keywords with
  | [] => stringify this source
  | keyword :: rest =>
      if has_property source keyword then
        let value := get_property source keyword in
        if Array_isArray value then
          let itemNames := map (stringify this) (array_elements value) in
          if list_length itemNames <? 1 then process_keywords this rest source
          else
            let translations :=
              match translate this with
              | Some tr => map tr itemNames
              | None => itemNames
              end in
            join (delimiter this) translations
        else
          let text := stringify this value in
          match translate this with
          | Some tr => tr text
          | None => text
          end
      else process_keywords this rest source
  end.

Definition process (this : t) (source : any) : string :=
  process_keywords this (keywords this) source.
End KeyedSchemaLabeler.

Module SchemaOptionsFactory.
Record t (Enforcer : Type) : Type := {
  labelFactory : any -> string;
  enforcerFactory : any -> completion Enforcer;
  splitter : option (any -> Alloc (list any))
}.
Arguments labelFactory {Enforcer} _ _.
Arguments enforcerFactory {Enforcer} _ _.
Arguments splitter {Enforcer} _.

(** [sources.map(...)]: the first source whose enforcer cannot be built
    ends the call. *)
Fixpoint options_of {Enforcer : Type} (this : t Enforcer) (sources : list any)
  : completion (list (LabeledValue.t Enforcer)) :=
  match sources with
  | [] => Normal []
  | source :: rest =>
      let label := labelFactory this source in
      match enforcerFactory this source with
      | Throw error => Throw error
      | Normal enforcer =>
          match options_of this rest with
          | Throw error => Throw error
          | Normal options =>
              Normal ({| LabeledValue.label := label;
                         LabeledValue.value := enforcer |} :: options)
          end
      end
  end.

Definition process {Enforcer : Type} (this : t Enforcer) (schema : any)
  : Alloc (completion (list (LabeledValue.t Enforcer))) :=
  sources <- match splitter this with
             | Some split => split schema
             | None => ret [schema]
             end ;;
  ret (options_of this sources).
End SchemaOptionsFactory.

Module SchemaOptionsParser.
Section Parser.
Context {Enforcer ValidationType : Type}.
Variable validate : Enforcer -> any -> ValidationType.
Variable validationParser : ValidationParser.t ValidationType.

Fixpoint scan (options : list (LabeledValue.t Enforcer)) (value : any)
  (bestOption : option (LabeledValue.t Enforcer)) (maxValidity : number)
  : option (LabeledValue.t Enforcer) :=
  match options with
  | [] => bestOption
  | option :: rest =>
      let validation := validate (LabeledValue.value option) value in
      let validity := ValidationParser.rateValidity validationParser validation in
      if num_gt validity maxValidity
      then scan rest value (Some option) validity
      else scan rest value bestOption maxValidity
  end.

Definition getMostValidOption (options : list (LabeledValue.t Enforcer))
  (value : any) : option (LabeledValue.t Enforcer) :=
  scan options value None NEGATIVE_INFINITY.
End Parser.
End SchemaOptionsParser.

(* ================================================================== *)
(** * The JSON-schema bindings ([src/json-schema])                     *)
(* ================================================================== *)

(** ** [coercion.ts] *)

Definition pure_coerce (f : any -> any) : Coerce := fun value => ret (f value).

(** Each type enforcer as the [validate]/[coerce] pair a [TypeKeywordRule]
    holds. *)
Definition AnyValue_enforcer : TypeEnforcer.t :=
  {| TypeEnforcer.validate := AnyValueEnforcer.validate;
     TypeEnforcer.coerce := pure_coerce AnyValueEnforcer.coerce |}.

Definition Array_enforcer (e : ArrayEnforcer.t) : TypeEnforcer.t :=
  {| TypeEnforcer.validate := ArrayEnforcer.validate e;
     TypeEnforcer.coerce := ArrayEnforcer.coerce e |}.

Definition Boolean_enforcer (e : BooleanEnforcer.t) : TypeEnforcer.t :=
  {| TypeEnforcer.validate := BooleanEnforcer.validate e;
     TypeEnforcer.coerce := pure_coerce (fun v => VBool (BooleanEnforcer.coerce e v)) |}.

Definition Number_enforcer (e : NumberEnforcer.t) : TypeEnforcer.t :=
  {| TypeEnforcer.validate := NumberEnforcer.validate e;
     TypeEnforcer.coerce := pure_coerce (fun v => VNum (NumberEnforcer.coerce e v)) |}.

Definition SteppedNumber_enforcer (e : SteppedNumberEnforcer.t) : TypeEnforcer.t :=
  {| TypeEnforcer.validate := SteppedNumberEnforcer.validate e;
     TypeEnforcer.coerce :=
       pure_coerce (fun v => VNum (SteppedNumberEnforcer.coerce e v)) |}.

Definition Object_enforcer (e : ObjectEnforcer.t) : TypeEnforcer.t :=
  {| TypeEnforcer.validate := ObjectEnforcer.validate e;
     TypeEnforcer.coerce := ObjectEnforcer.coerce e |}.

Definition String_enforcer (e : StringEnforcer.t) : TypeEnforcer.t :=
  {| TypeEnforcer.validate := StringEnforcer.validate e;
     TypeEnforcer.coerce := pure_coerce (StringEnforcer.coerce e) |}.

Definition StrictEquality_enforcer (e : StrictEqualityEnforcer.t) : TypeEnforcer.t :=
  {| TypeEnforcer.validate := StrictEqualityEnforcer.validate e;
     TypeEnforcer.coerce := pure_coerce (StrictEqualityEnforcer.coerce e) |}.

Definition createJSONSchemaTypeRules (keyword : string)
  (valueProperty : option string) : list (string * TypeKeywordRule.t) :=
  let rule (typeEnforcer : TypeEnforcer.t) : TypeKeywordRule.t :=
    {| TypeKeywordRule.keyword := keyword;
       TypeKeywordRule.typeEnforcer := typeEnforcer;
       TypeKeywordRule.typedKeywords := None |} in
  [ ("any", rule AnyValue_enforcer);
    ("array", rule (Array_enforcer (ArrayEnforcer.new None valueProperty)));
    ("boolean", rule (Boolean_enforcer (BooleanEnforcer.new (Some false) valueProperty)));
    ("integer",
      rule (SteppedNumber_enforcer
              (SteppedNumberEnforcer.new (Some (of_Z 0)) (Some (of_Z 1)) valueProperty)));
    ("null", rule (StrictEquality_enforcer {| StrictEqualityEnforcer.value := VNull |}));
    ("number", rule (Number_enforcer (NumberEnforcer.new (Some (of_Z 0)) valueProperty)));
    ("object", rule (Object_enforcer (ObjectEnforcer.new None valueProperty)));
    ("string", rule (String_enforcer (StringEnforcer.new (Some "") valueProperty))) ].

Definition not_a_function : string := "TypeError: getEnforcerFor is not a function".

Module JSONSchemaTypeRule.
Record t : Type := {
  keyword : string;
  typeRules : list (string * TypeKeywordRule.t)
}.

(** [keyword] is [type] and [typeRules] the table above when the caller
    gives none. *)
Definition new (keyword : option string)
  (typeRules : option (list (string * TypeKeywordRule.t))) : t :=
  let keyword := match keyword with Some k => k | None => "type" end in
  {| keyword := keyword;
     typeRules :=
       match typeRules with
       | Some rules => rules
       | None => createJSONSchemaTypeRules keyword None
       end |}.

(** [rule.getEnforcerFor(schema, context)] for what [typeRules[name]]
    gave: an inherited member is no rule and cannot be called. *)
Definition call (found : lookup TypeKeywordRule.t) (schema : any)
  (context : option KeywordEnforcerContext.t)
  : completion (option KeywordConstraint) :=
  match found with
  | Own rule => TypeKeywordRule.getEnforcerFor rule schema context
  | Inherited => Throw not_a_function
  | Absent => Normal None
  end.

Definition type_name (item : any) : option string :=
  match item with VStr name => Some name | _ => None end.

(** [targetRules.map(...).filter(...)], rule after rule. *)
Fixpoint enforcers_of (targetRules : list (lookup TypeKeywordRule.t))
  (schema : any) (context : option KeywordEnforcerContext.t)
  : completion (list KeywordConstraint) :=
  match targetRules with
  | [] => Normal []
  | rule :: rest =>
      match call rule schema context with
      | Throw error => Throw error
      | Normal enforcer =>
          match enforcers_of rest schema context with
          | Throw error => Throw error
          | Normal others =>
              Normal match enforcer with
                     | Some e => e :: others
                     | None => others
                     end
          end
      end
  end.

Definition is_found {A : Type} (found : lookup A) : bool :=
  match found with Absent => false | _ => true end.

Definition getEnforcerFor (this : t) (schema : any)
  (context : option KeywordEnforcerContext.t)
  : completion (option KeywordConstraint) :=
  let typeValue := get_property schema (keyword this) in
  match typeValue with
  | VStr name => call (table_get (typeRules this) name) schema context
  | VArr _ items =>
      let typeNames := flat_map (fun item =>
                         match type_name item with
                         | Some name => [name]
                         | None => []
                         end) items in
      let targetRules :=
        filter is_found (map (table_get (typeRules this)) typeNames) in
      match enforcers_of targetRules schema context with
      | Throw error => Throw error
      | Normal typeEnforcers =>
          Normal (Some (KeywordEnforcerFork.constraint
            {| KeywordEnforcerFork.branches := typeEnforcers;
               KeywordEnforcerFork.defaultCoerce := echoValue |}))
      end
  | _ => Normal None
  end.

Definition rule (this : t) : KeywordRule.t :=
  {| KeywordRule.keyword := keyword this;
     KeywordRule.getEnforcerFor := getEnforcerFor this |}.
End JSONSchemaTypeRule.

Module JSONSchemaConstRule.
Record t : Type := { keyword : string }.

Definition new (keyword : option string) : t :=
  {| keyword := match keyword with Some k => k | None => "const" end |}.

Definition getEnforcerFor (this : t) (schema : any)
  (context : option KeywordEnforcerContext.t)
  : completion (option KeywordConstraint) :=
  let value := get_property schema (keyword this) in
  if negb (strict_eq value VUndefined) then
    Normal (Some (KeywordValueEnforcer.constraint
      (KeywordValueEnforcer.new
         (keyword this)
         value
         (fun target => isEquivalentTo target value)
         (Some (fun target => structuredClone value))
         (Some (of_Z 150)))))
  else Normal None.

Definition rule (this : t) : KeywordRule.t :=
  {| KeywordRule.keyword := keyword this;
     KeywordRule.getEnforcerFor := getEnforcerFor this |}.
End JSONSchemaConstRule.

Definition JSONSchemaAnyValueEnforcer : SchemaEnforcer.t KeywordErrorLog :=
  {| SchemaEnforcer.schema := VBool true;
     SchemaEnforcer.validate := fun value => {| errors := [] |};
     SchemaEnforcer.coerce := Some (fun value => ret value) |}.

Definition JSONSchemaNoValueEnforcer : SchemaEnforcer.t KeywordErrorLog :=
  {| SchemaEnforcer.schema := VBool false;
     SchemaEnforcer.validate :=
       fun value =>
         {| errors :=
              [ {| KeywordError.keyword := None;
                   KeywordError.value := VUndefined;
                   KeywordError.target := value;
                   KeywordError.priority := None;
                   KeywordError.coerce := None |} ] |};
     SchemaEnforcer.coerce := None |}.

Module BooleanFork.
Record t (T : Type) : Type := { true_ : T; false_ : T }.
Arguments true_ {T} _.
Arguments false_ {T} _.
End BooleanFork.

Module JSONSchemaEnforcerFactory.
Record t : Type := {
  booleanEnforcers : BooleanFork.t (SchemaEnforcer.t KeywordErrorLog);
  keywordHandler : SequentialKeywordEnforcerFactory.t
}.

Definition new : t :=
  {| booleanEnforcers :=
       {| BooleanFork.true_ := JSONSchemaAnyValueEnforcer;
          BooleanFork.false_ := JSONSchemaNoValueEnforcer |};
     keywordHandler :=
       SequentialKeywordEnforcerFactory.new
         [ JSONSchemaTypeRule.rule (JSONSchemaTypeRule.new None None);
           JSONSchemaConstRule.rule (JSONSchemaConstRule.new None) ] |}.

(** What [process] returns: the enforcer of a boolean schema, or the one
    the keyword rules build. *)
Inductive enforcer : Type :=
| OfBoolean (e : SchemaEnforcer.t KeywordErrorLog)
| OfKeywords (e : KeywordRulesEnforcer.t).

Definition schema (e : enforcer) : any :=
  match e with
  | OfBoolean e => SchemaEnforcer.schema e
  | OfKeywords e => KeywordRulesEnforcer.schema e
  end.

Definition validate (e : enforcer) : Convert any KeywordErrorLog :=
  match e with
  | OfBoolean e => SchemaEnforcer.validate e
  | OfKeywords e => KeywordRulesEnforcer.validate e
  end.

Definition coerce (e : enforcer) : option Coerce :=
  match e with
  | OfBoolean e => SchemaEnforcer.coerce e
  | OfKeywords e => KeywordRulesEnforcer.coerce e
  end.

Definition process (this : t) (schema : any)
  (context : option KeywordEnforcerContext.t) : completion enforcer :=
  match schema with
  | VBool flag =>
      Normal (OfBoolean (if flag
                         then BooleanFork.true_ (booleanEnforcers this)
                         else BooleanFork.false_ (booleanEnforcers this)))
  | _ =>
      match SequentialKeywordEnforcerFactory.process
              (keywordHandler this) schema
              (Some match context with
                    | Some c => c
                    | None => KeywordEnforcerContext.empty
                    end) with
      | Throw error => Throw error
      | Normal e => Normal (OfKeywords e)
      end
  end.
End JSONSchemaEnforcerFactory.

(** ** [options.ts] *)

Definition JSON_SCHEMA_LABEL_PROPERTIES : list string :=
  [ "title"; "$id"; "$ref"; "description"; "$comment"; "const"; "format"; "type" ].

(** The two constant schemas are created when the module loads; they take
    the first addresses, and what runs later allocates from
    [first_free_address] on. *)
Definition ANY_VALUE_JSON_SCHEMA : any :=
  VObj 0%nat
    [ ("title", VStr "ANY_VALUE_JSON_SCHEMA");
      ("oneOf",
        VArr 1%nat
          [ VObj 2%nat [("type", VStr "null")];
            VObj 3%nat [("type", VStr "boolean")];
            VObj 4%nat [("type", VStr "string")];
            VObj 5%nat [("type", VStr "number")];
            VObj 6%nat [("type", VStr "integer")];
            VObj 7%nat [("type", VStr "array"); ("items", VBool true)];
            VObj 8%nat [("type", VStr "object"); ("additionalProperties", VBool true)] ]) ].

Definition NO_VALUE_JSON_SCHEMA : any :=
  VObj 9%nat
    [ ("title", VStr "NO_VALUE_JSON_SCHEMA");
      ("allOf",
        VArr 10%nat
          [ VObj 11%nat [("type", VStr "boolean")];
            VObj 12%nat [("type", VStr "string")] ]) ].

Definition first_free_address : loc := 13%nat.

Module JSONSchemaLabeler.
Record t : Type := {
  booleanLabels : BooleanFork.t string;
  keyHandler : KeyedSchemaLabeler.t
}.

Definition new (keyHandler : option KeyedSchemaLabeler.t) : t :=
  {| booleanLabels :=
       {| BooleanFork.true_ := ToString (get_property ANY_VALUE_JSON_SCHEMA "title");
          BooleanFork.false_ := ToString (get_property NO_VALUE_JSON_SCHEMA "title") |};
     keyHandler :=
       match keyHandler with
       | Some handler => handler
       | None =>
           KeyedSchemaLabeler.new (Some JSON_SCHEMA_LABEL_PROPERTIES) None None
       end |}.

Definition process (this : t) (source : any) : string :=
  match source with
  | VBool flag =>
      let label :=
        if flag then BooleanFork.true_ (booleanLabels this)
        else BooleanFork.false_ (booleanLabels this) in
      match KeyedSchemaLabeler.translate (keyHandler this) with
      | Some translate => translate label
      | None => label
      end
  | _ => KeyedSchemaLabeler.process (keyHandler this) source
  end.
End JSONSchemaLabeler.


(** [items.map(make)] for a [make] that creates an object per item. *)
Fixpoint map_alloc {A B : Type} (make : A -> Alloc B) (items : list A)
  : Alloc (list B) :=
  match items with
  | [] => ret []
  | item :: rest =>
      first <- make item ;;
      others <- map_alloc make rest ;;
      ret (first :: others)
  end.

Module JSONSchemaSplitter.
Record t : Type := {
  booleanSchemas : BooleanFork.t (list any);
  subschemaKeys : list string;
  enumKey : string
}.

(** [subschemaKeys] is [oneOf], [anyOf] and [booleanSchemas] a copy of
    the any-value alternatives and the no-value schema when the caller
    gives none. *)
Definition new (subschemaKeys : option (list string))
  (booleanSchemas : option (BooleanFork.t (list any))) : Alloc t :=
  schemas <- match booleanSchemas with
             | Some given => ret given
             | None =>
                 copy <- structuredClone (get_property ANY_VALUE_JSON_SCHEMA "oneOf") ;;
                 ret {| BooleanFork.true_ := array_elements copy;
                        BooleanFork.false_ := [NO_VALUE_JSON_SCHEMA] |}
             end ;;
  ret {| booleanSchemas := schemas;
         subschemaKeys :=
           match subschemaKeys with
           | Some keys => keys
           | None => ["oneOf"; "anyOf"]
           end;
         enumKey := "enum" |}.

Definition is_flag_or_object (item : any) : bool :=
  String.eqb (typeof item) "boolean"
  || (String.eqb (typeof item) "object"
      && negb (is_nullish item)
      && negb (Array_isArray item)).

(** The loop over [subschemaKeys], then what follows it. *)
Fixpoint from_keywords (keywords : list string) (source : any)
  (otherwise : Alloc (list any)) : Alloc (list any) :=
  match keywords with
  | [] => otherwise
  | keyword :: rest =>
      let keyValue := get_property source keyword in
      if Array_isArray keyValue
      then ret (filter is_flag_or_object (array_elements keyValue))
      else from_keywords rest source otherwise
  end.

Definition from_type (source : any) : Alloc (list any) :=
  let typeValue := get_property source "type" in
  if Array_isArray typeValue then
    let typeNames :=
      filter (fun item => String.eqb (typeof item) "string")
             (array_elements typeValue) in
    map_alloc (fun type => new_object [("type", type)]) typeNames
  else ret [source].

Definition process (this : t) (source : any) : Alloc (list any) :=
  match source with
  | VBool flag =>
      ret (if flag then BooleanFork.true_ (booleanSchemas this)
           else BooleanFork.false_ (booleanSchemas this))
  | _ =>
      let enumValues := get_property source (enumKey this) in
      if negb (String.eqb (enumKey this) "") && Array_isArray enumValues
      then map_alloc (fun item => new_object [("const", item)])
                     (array_elements enumValues)
      else from_keywords (subschemaKeys this) source (from_type source)
  end.
End JSONSchemaSplitter.

Module JSONSchemaOptionsFactory.
Definition t : Type := SchemaOptionsFactory.t JSONSchemaEnforcerFactory.enforcer.

(** [enforcerFactory] is a new [JSONSchemaEnforcerFactory] when the
    caller gives none. *)
Definition new (enforcerFactory : option JSONSchemaEnforcerFactory.t)
  : Alloc t :=
  let factory :=
    match enforcerFactory with
    | Some given => given
    | None => JSONSchemaEnforcerFactory.new
    end in
  splitter <- JSONSchemaSplitter.new None None ;;
  ret {| SchemaOptionsFactory.enforcerFactory :=
           fun source => JSONSchemaEnforcerFactory.process factory source None;
         SchemaOptionsFactory.labelFactory :=
           JSONSchemaLabeler.process (JSONSchemaLabeler.new None);
         SchemaOptionsFactory.splitter :=
           Some (JSONSchemaSplitter.process splitter) |}.
End JSONSchemaOptionsFactory.


(* ================================================================== *)
(** * Properties                                                       *)
(* ================================================================== *)

(** ** The order on numbers *)

Lemma Qlt_bool_iff (a b : Q) : Qlt_bool a b = true <-> (a < b)%Q.
Proof.
  unfold Qlt_bool. rewrite negb_true_iff.
  split; intro H.
  - apply Qnot_le_lt. intro Hle. apply Qle_bool_iff in Hle. congruence.
  - destruct (Qle_bool b a) eqn:E; [| reflexivity].
    apply Qle_bool_iff in E. exfalso. exact (Qlt_not_le _ _ H E).
Qed.

Lemma Qlt_bool_false_iff (a b : Q) : Qlt_bool a b = false <-> (b <= a)%Q.
Proof.
  unfold Qlt_bool. rewrite negb_false_iff. apply Qle_bool_iff.
Qed.

(** [a < b <= c] gives [a < c]. *)
Lemma num_lt_le_trans (a b c : number) :
  num_lt a b = true -> num_lt c b = false -> isNaN c = false ->
  num_lt a c = true.
Proof.
  unfold num_lt, isNaN.
  destruct (value_of a), (value_of b), (value_of c); intros Hab Hcb Hc;
    try discriminate; try reflexivity.
  apply Qlt_bool_iff. apply Qlt_bool_iff in Hab. apply Qlt_bool_false_iff in Hcb.
  eapply Qlt_le_trans; eassumption.
Qed.

(** [a <= b <= c] gives [a <= c]. *)
Lemma num_le_trans (a b c : number) :
  isNaN b = false ->
  num_lt b a = false -> num_lt c b = false -> num_lt c a = false.
Proof.
  unfold num_lt, isNaN.
  destruct (value_of a), (value_of b), (value_of c); intros Hb Hab Hbc;
    try discriminate; try reflexivity.
  apply Qlt_bool_false_iff. apply Qlt_bool_false_iff in Hab, Hbc.
  eapply Qle_trans; eassumption.
Qed.

Lemma num_lt_irrefl (a : number) : num_lt a a = false.
Proof.
  unfold num_lt. destruct (value_of a); try reflexivity.
  apply Qlt_bool_false_iff. apply Qle_refl.
Qed.

Lemma num_lt_asym (a b : number) : num_lt a b = true -> num_lt b a = false.
Proof.
  unfold num_lt.
  destruct (value_of a), (value_of b); intro H; try discriminate; try reflexivity.
  apply Qlt_bool_false_iff. apply Qlt_bool_iff in H. apply Qlt_le_weak, H.
Qed.

Lemma num_lt_not_NaN (a b : number) :
  num_lt a b = true -> isNaN a = false /\ isNaN b = false.
Proof.
  unfold num_lt, isNaN.
  destruct (value_of a), (value_of b); intro H; try discriminate; auto.
Qed.

(** ** Rating an error log ([KeywordErrorLogValidationParser.rateValidity]) *)

Section RateValidity.

(** An error that carries a priority and nothing else of interest. *)
Definition error_of_priority (p : option number) : KeywordError.t :=
  {| KeywordError.keyword := Some "keyword";
     KeywordError.value := VUndefined;
     KeywordError.target := VUndefined;
     KeywordError.priority := p;
     KeywordError.coerce := None |}.

Definition priority_or_zero (error : KeywordError.t) : number :=
  match KeywordError.priority error with
  | Some p => p
  | None => of_Z 0
  end.

(** The highest priority occurring among the errors of a log, a missing
    priority counting as 0: the largest of the priorities themselves. *)
Definition highest_priority (errors : list KeywordError.t) : number :=
  match errors with
  | [] => NEGATIVE_INFINITY
  | first :: rest =>
      fold_left
        (fun highest error =>
           if num_gt (priority_or_zero error) highest
           then priority_or_zero error else highest)
        rest (priority_or_zero first)
  end.

(** The rating as the specification words it: 1 for a log with no error,
    otherwise the negative of the highest priority. *)
Definition rating_by_highest_priority (log : KeywordErrorLog) : number :=
  match errors log with
  | [] => of_Z 1
  | _ :: _ => num_neg (highest_priority (errors log))
  end.

(** [m] is at least every priority present among [errors]. *)
Definition bounds_priorities (m : number) (errors : list KeywordError.t) : Prop :=
  forall error p,
    In error errors -> KeywordError.priority error = Some p ->
    num_gt p m = false.

(** One turn of the loop of [rateValidity]. *)
Definition raise_priority (maxErrorPriority : number) (error : KeywordError.t)
  : number :=
  match KeywordError.priority error with
  | Some p => if num_gt p maxErrorPriority then p else maxErrorPriority
  | None => maxErrorPriority
  end.

(** What the loop of [rateValidity] leaves in [maxErrorPriority]. *)
Lemma max_loop_spec (errors : list KeywordError.t) :
  forall start,
    isNaN start = false ->
    let m := fold_left raise_priority errors start in
    isNaN m = false
    /\ num_lt m start = false
    /\ (m = start
        \/ exists error, In error errors /\ KeywordError.priority error = Some m)
    /\ bounds_priorities m errors.
Proof.
  induction errors as [| error rest IH]; intros start Hstart; simpl.
  - repeat split; auto using num_lt_irrefl.
    intros e p [].
  - set (next := raise_priority start error).
    assert (Hnext : isNaN next = false /\ num_lt next start = false
                    /\ (next = start \/ KeywordError.priority error = Some next)).
    { unfold next, raise_priority.
      destruct (KeywordError.priority error) as [p |];
        [| auto using num_lt_irrefl].
      destruct (num_gt p start) eqn:Hgt; [| auto using num_lt_irrefl].
      unfold num_gt in Hgt. destruct (num_lt_not_NaN _ _ Hgt) as [_ Hp].
      repeat split; auto.
      apply num_lt_asym. exact Hgt. }
    destruct Hnext as (Hnan & Hge & Hsrc).
    destruct (IH next Hnan) as (Hm & Hmge & Hmsrc & Hbound).
    repeat split.
    + exact Hm.
    + eapply num_le_trans; [exact Hnan | exact Hge | exact Hmge].
    + destruct Hmsrc as [-> | (e & Hin & He)].
      * destruct Hsrc as [-> | Hp]; [left; reflexivity |].
        right. exists error. split; [left; reflexivity | exact Hp].
      * right. exists e. split; [right; exact Hin | exact He].
    + intros e p [<- | Hin] Hp; [| eapply Hbound; eassumption].
      unfold num_gt.
      destruct (num_lt (fold_left raise_priority rest next) p) eqn:Hlt; [| reflexivity].
      exfalso.
      assert (Hle : num_lt next p = false).
      { unfold next, raise_priority. rewrite Hp.
        destruct (num_gt p start) eqn:Hgt; [apply num_lt_irrefl | exact Hgt]. }
      pose proof (num_lt_le_trans _ _ _ Hlt Hle Hnan) as Hcontra.
      fold raise_priority in Hmge. congruence.
Qed.

(** C2, as the code has it: a log with no error is rated 1; a log with
    errors is rated the negative of [m], where [m] is the largest of 0 and
    the priorities present among the errors (never below 0, never [NaN]);
    so when every priority present is negative the rating is 0, and when
    one of them is at least 0 it is the negative of the highest one. *)
Theorem rateValidity_floor_max (log : KeywordErrorLog) :
  match errors log with
  | [] => KeywordErrorLogValidationParser.rateValidity log = of_Z 1
  | _ :: _ =>
      exists m,
        KeywordErrorLogValidationParser.rateValidity log = num_neg m
        /\ isNaN m = false
        /\ num_lt m (of_Z 0) = false
        /\ (m = of_Z 0
            \/ exists error,
                 In error (errors log) /\ KeywordError.priority error = Some m)
        /\ bounds_priorities m (errors log)
        /\ ((forall error p,
               In error (errors log) ->
               KeywordError.priority error = Some p ->
               num_lt p (of_Z 0) = true) ->
            m = of_Z 0)
  end.
Proof.
  destruct log as [errs]. simpl.
  destruct errs as [| first rest] eqn:E; [reflexivity |].
  rewrite <- E.
  destruct (max_loop_spec errs (of_Z 0) eq_refl) as (Hnan & Hge & Hsrc & Hbound).
  exists (fold_left raise_priority errs (of_Z 0)).
  repeat split; try assumption.
  - unfold KeywordErrorLogValidationParser.rateValidity.
    simpl errors. rewrite E. reflexivity.
  - intros Hneg. destruct Hsrc as [-> | (e & Hin & He)]; [reflexivity |].
    specialize (Hneg e _ Hin He). congruence.
Qed.

(** C2, counterexample: the one error of the log has priority -5; the
    highest priority is -5 and its negative is 5, but the code rates the
    log -0. *)
Lemma rateValidity_negative_priority_counterexample :
  let log := {| errors := [error_of_priority (Some (of_Z (-5)))] |} in
  KeywordErrorLogValidationParser.rateValidity log = num_neg (of_Z 0)
  /\ rating_by_highest_priority log = of_Z 5
  /\ num_strict_eq (KeywordErrorLogValidationParser.rateValidity log) (rating_by_highest_priority log) = false.
Proof. repeat split; vm_compute; reflexivity. Qed.

End RateValidity.

(** ** Forking over alternative branches ([KeywordEnforcerFork]) *)

Section Fork.

(** A branch that reports the same log whatever the target. *)
Definition constant_branch (log : KeywordErrorLog) : KeywordConstraint :=
  {| ValueConstraint.validate := fun _ => log;
     ValueConstraint.coerce := None |}.

Definition log_of_priorities (ps : list Z) : KeywordErrorLog :=
  {| errors := map (fun p => error_of_priority (Some (of_Z p))) ps |}.

Definition fails (branch : KeywordConstraint) (target : any) : Prop :=
  errors (ValueConstraint.validate branch target) <> [].

(** The loop returns at the first branch that reports no error, whatever
    it holds by then. *)
Lemma validate_loop_first_valid (before after : list KeywordConstraint)
  (branch : KeywordConstraint) (target : any) :
  Forall (fun b => fails b target) before ->
  errors (ValueConstraint.validate branch target) = [] ->
  forall result lowestPriority,
    KeywordEnforcerFork.validate_loop
      (before ++ branch :: after)%list target result lowestPriority
    = ValueConstraint.validate branch target.
Proof.
  intros Hbefore Hvalid. induction Hbefore as [| b before Hb _ IH];
    intros result lowestPriority; simpl.
  - rewrite Hvalid. reflexivity.
  - unfold fails in Hb.
    destruct (errors (ValueConstraint.validate b target)) as [| e es] eqn:E;
      [congruence |].
    unfold list_length. simpl List.length.
    replace (Z.of_nat (S (List.length es)) <? 1) with false
      by (symmetry; apply Z.ltb_ge; lia).
    destruct result; [destruct (num_lt _ _) |]; apply IH.
Qed.

(** [validate] tries the branches in order and returns the log of the
    first one that reports no error. *)
Lemma fork_validate_first_valid (this : KeywordEnforcerFork.t)
  (before after : list KeywordConstraint) (branch : KeywordConstraint)
  (target : any) :
  KeywordEnforcerFork.branches this = (before ++ branch :: after)%list ->
  Forall (fun b => fails b target) before ->
  errors (ValueConstraint.validate branch target) = [] ->
  KeywordEnforcerFork.validate this target
  = ValueConstraint.validate branch target.
Proof.
  intros Hbranches Hbefore Hvalid. unfold KeywordEnforcerFork.validate.
  rewrite Hbranches. apply validate_loop_first_valid; assumption.
Qed.

(** What [getHighestPriorityError] returns is the last error of the list,
    whenever that error has an ordinary priority: the comparison is
    against a bound that stays at minus infinity. *)
Lemma getHighestPriorityError_last (errors : list KeywordError.t)
  (last : KeywordError.t) :
  num_gt (priority_or_zero last) NEGATIVE_INFINITY = true ->
  KeywordEnforcerFork.getHighestPriorityError (errors ++ [last])%list
  = Some last.
Proof.
  intro Hlast. unfold KeywordEnforcerFork.getHighestPriorityError.
  rewrite fold_left_app. cbn [fold_left]. unfold priority_or_zero in Hlast.
  destruct (fold_left _ errors None); [rewrite Hlast |]; reflexivity.
Qed.

(** The failing input: the first branch reports two errors, of priority 5
    then 1; the second branch reports one error of priority 3. *)
Definition misranked_fork : KeywordEnforcerFork.t :=
  {| KeywordEnforcerFork.branches :=
       [ constant_branch (log_of_priorities [5; 1]);
         constant_branch (log_of_priorities [3]) ];
     KeywordEnforcerFork.defaultCoerce := echoValue |}.

(** C1, the code at the failing input: [validate] returns the log of the
    first branch, whose highest priority is 5, although the second
    branch's highest priority, 3, is lower; the error that
    [getHighestPriorityError] picks in the first log is its last one, of
    priority 1. *)
Theorem fork_validate_ranks_by_last_error :
  KeywordEnforcerFork.validate misranked_fork VNull
  = log_of_priorities [5; 1]
  /\ highest_priority (errors (log_of_priorities [5; 1])) = of_Z 5
  /\ highest_priority (errors (log_of_priorities [3])) = of_Z 3
  /\ num_lt (of_Z 3) (of_Z 5) = true
  /\ KeywordEnforcerFork.getHighestPriorityError
       (errors (log_of_priorities [5; 1]))
     = Some (error_of_priority (Some (of_Z 1))).
Proof. repeat split; vm_compute; reflexivity. Qed.

End Fork.

(** ** Merging validation steps ([mergeValidateSteps]) *)

Section MergeValidateSteps.

Context {ValidationType : Type}.
Variable validationParser : ValidationParser.t ValidationType.

Definition step_passes (value : any) (step : Convert any ValidationType) : Prop :=
  ValidationParser.isValid validationParser (step value) = true.

(** The steps before the first invalid one are called, then that one, and
    no other; its result is returned. *)
Lemma run_validate_steps_first_invalid
  (before after : list (Convert any ValidationType))
  (step : Convert any ValidationType) (value : any) :
  Forall (step_passes value) before ->
  ValidationParser.isValid validationParser (step value) = false ->
  forall i,
    run_validate_steps validationParser (before ++ step :: after)%list i value
    = (seq i (S (List.length before)), step value).
Proof.
  intros Hbefore Hstep. induction Hbefore as [| s before Hs _ IH]; intro i; simpl.
  - rewrite Hstep. reflexivity.
  - unfold step_passes in Hs. rewrite Hs. simpl.
    rewrite (IH (S i)). reflexivity.
Qed.

(** When every step passes, every step is called and the parser's valid
    value is returned. *)
Lemma run_validate_steps_all_valid (steps : list (Convert any ValidationType))
  (value : any) :
  Forall (step_passes value) steps ->
  forall i,
    run_validate_steps validationParser steps i value
    = (seq i (List.length steps), ValidationParser.getValid validationParser).
Proof.
  intros Hsteps. induction Hsteps as [| s steps Hs _ IH]; intro i; simpl.
  - reflexivity.
  - unfold step_passes in Hs. rewrite Hs. simpl.
    rewrite (IH (S i)). reflexivity.
Qed.

End MergeValidateSteps.

(** ** Merging the rules of a schema ([SequentialKeywordEnforcerFactory]) *)

Section SequentialFactory.

Variable schema : any.
Variable context : KeywordEnforcerContext.t.
Variable value : any.

Definition enforcer_of (rule : KeywordRule.t)
  : completion (option KeywordConstraint) :=
  KeywordRule.getEnforcerFor rule schema (Some context).

(** The rule does not apply to the schema, or its constraint accepts the
    value. *)
Definition rule_passes (rule : KeywordRule.t) : Prop :=
  enforcer_of rule = Normal None
  \/ exists constraint,
       enforcer_of rule = Normal (Some constraint)
       /\ errors (ValueConstraint.validate constraint value) = [].

(** The rule applies and its constraint rejects the value with [log]. *)
Definition rule_fails_with (rule : KeywordRule.t) (log : KeywordErrorLog)
  : Prop :=
  exists constraint,
    enforcer_of rule = Normal (Some constraint)
    /\ ValueConstraint.validate constraint value = log
    /\ errors log <> [].

(** Asking the rule for its constraint does not throw. *)
Definition rule_builds (rule : KeywordRule.t) : Prop :=
  exists outcome, enforcer_of rule = Normal outcome.

Definition log_passes (step : Convert any KeywordErrorLog) : Prop :=
  step_passes (ErrorLogValidationParser KeywordError.t) value step.

Lemma log_passes_iff (step : Convert any KeywordErrorLog) :
  log_passes step <-> errors (step value) = [].
Proof.
  unfold log_passes, step_passes. simpl. unfold list_length.
  destruct (errors (step value)); simpl; split; intro H;
    try reflexivity; try discriminate.
  apply Z.ltb_lt in H. lia.
Qed.

Lemma collect_passing (before : list KeywordRule.t) :
  Forall rule_passes before ->
  forall q,
  exists q' extra,
    (forall rest,
       SequentialKeywordEnforcerFactory.collect (before ++ rest)%list schema context q
       = SequentialKeywordEnforcerFactory.collect rest schema context q')
    /\ SequentialKeywordEnforcerFactory.validateQueue q'
       = (SequentialKeywordEnforcerFactory.validateQueue q ++ extra)%list
    /\ Forall log_passes extra.
Proof.
  intros Hbefore. induction Hbefore as [| rule before Hrule _ IH]; intro q.
  - exists q, []. rewrite app_nil_r. auto.
  - destruct Hrule as [Hnone | (c & Hsome & Hvalid)]; unfold enforcer_of in *.
    + destruct (IH q) as (q' & extra & Hrest & Hqueue & Hpass).
      exists q', extra. repeat split; auto.
      intro rest. simpl. rewrite Hnone. apply Hrest.
    + match goal with
      | |- exists _ _, (forall rest, SequentialKeywordEnforcerFactory.collect _ _ _ _ = _) /\ _ =>
          destruct (IH {| SequentialKeywordEnforcerFactory.validateQueue :=
                 (SequentialKeywordEnforcerFactory.validateQueue q
                  ++ [fun v => ValueConstraint.validate c v])%list;
               SequentialKeywordEnforcerFactory.coerceQueue :=
                 match ValueConstraint.coerce c with
                 | Some coerce =>
                     (SequentialKeywordEnforcerFactory.coerceQueue q
                      ++ [fun v => coerce v])%list
                 | None => SequentialKeywordEnforcerFactory.coerceQueue q
                 end;
               SequentialKeywordEnforcerFactory.enforcers :=
                 table_set (SequentialKeywordEnforcerFactory.enforcers q)
                   (KeywordRule.keyword rule) c |})
            as (q' & extra & Hrest & Hqueue & Hpass)
      end.
      exists q', ((fun v => ValueConstraint.validate c v) :: extra).
      repeat split.
      * intro rest. simpl. rewrite Hsome. apply Hrest.
      * rewrite Hqueue. simpl. rewrite <- app_assoc. reflexivity.
      * constructor; [apply log_passes_iff; exact Hvalid | exact Hpass].
Qed.

Lemma collect_building (after : list KeywordRule.t) :
  Forall rule_builds after ->
  forall q,
  exists q' extra,
    SequentialKeywordEnforcerFactory.collect after schema context q = Normal q'
    /\ SequentialKeywordEnforcerFactory.validateQueue q'
       = (SequentialKeywordEnforcerFactory.validateQueue q ++ extra)%list.
Proof.
  intros Hafter. induction Hafter as [| rule after Hrule _ IH]; intro q.
  - exists q, []. rewrite app_nil_r. auto.
  - destruct Hrule as (outcome & Hout). unfold enforcer_of in Hout.
    simpl. rewrite Hout. destruct outcome as [c |].
    + match goal with
      | |- exists _ _, SequentialKeywordEnforcerFactory.collect _ _ _ ?q1 = _ /\ _ =>
          destruct (IH q1) as (q' & extra & Hcollect & Hqueue)
      end.
      exists q', ((fun v => ValueConstraint.validate c v) :: extra).
      split; [exact Hcollect |].
      rewrite Hqueue. simpl. rewrite <- app_assoc. reflexivity.
    + apply IH.
Qed.

Lemma rule_passes_builds (rule : KeywordRule.t) :
  rule_passes rule -> rule_builds rule.
Proof. intros [H | (c & H & _)]; eexists; exact H. Qed.

End SequentialFactory.

Definition effective_context (context : option KeywordEnforcerContext.t)
  : KeywordEnforcerContext.t :=
  match context with
  | Some c => c
  | None => KeywordEnforcerContext.empty
  end.

(** C7: [mergeValidateSteps] calls the steps in the given order up to the
    first one whose result the parser deems invalid, returns that result,
    and calls no later step; when every step passes it returns the parser's
    valid value.  Hence the validation that
    [SequentialKeywordEnforcerFactory.process] builds reports the log of the
    first rule, in the order of the rule list, whose constraint rejects the
    value, and the empty log when no rule does. *)
Theorem first_failing_step_governs :
  (forall (ValidationType : Type) (parser : ValidationParser.t ValidationType)
          (before after : list (Convert any ValidationType))
          (step : Convert any ValidationType) (value : any),
      Forall (step_passes parser value) before ->
      ValidationParser.isValid parser (step value) = false ->
      run_validate_steps parser (before ++ step :: after)%list 0 value
      = (seq 0 (S (List.length before)), step value)
      /\ mergeValidateSteps (before ++ step :: after)%list parser value
         = step value)
  /\ (forall (ValidationType : Type) (parser : ValidationParser.t ValidationType)
             (steps : list (Convert any ValidationType)) (value : any),
         Forall (step_passes parser value) steps ->
         run_validate_steps parser steps 0 value
         = (seq 0 (List.length steps), ValidationParser.getValid parser)
         /\ mergeValidateSteps steps parser value
            = ValidationParser.getValid parser)
  /\ (forall (before after : list KeywordRule.t) (rule : KeywordRule.t)
             (schema : any) (context : option KeywordEnforcerContext.t)
             (value : any) (log : KeywordErrorLog),
         Forall (rule_passes schema (effective_context context) value) before ->
         rule_fails_with schema (effective_context context) value rule log ->
         Forall (rule_builds schema (effective_context context)) after ->
         exists enforcer,
           SequentialKeywordEnforcerFactory.process
             (SequentialKeywordEnforcerFactory.new (before ++ rule :: after)%list)
             schema context
           = Normal enforcer
           /\ KeywordRulesEnforcer.validate enforcer value = log)
  /\ (forall (rules : list KeywordRule.t) (schema : any)
             (context : option KeywordEnforcerContext.t) (value : any),
         Forall (rule_passes schema (effective_context context) value) rules ->
         exists enforcer,
           SequentialKeywordEnforcerFactory.process
             (SequentialKeywordEnforcerFactory.new rules) schema context
           = Normal enforcer
           /\ KeywordRulesEnforcer.validate enforcer value = {| errors := [] |}).
Proof.
  split; [| split; [| split]].
  - intros V parser before after step value Hbefore Hstep.
    pose proof (run_validate_steps_first_invalid parser before after step value
                  Hbefore Hstep 0%nat) as Hrun.
    split; [exact Hrun |]. unfold mergeValidateSteps. rewrite Hrun. reflexivity.
  - intros V parser steps value Hsteps.
    pose proof (run_validate_steps_all_valid parser steps value Hsteps 0%nat) as Hrun.
    split; [exact Hrun |]. unfold mergeValidateSteps. rewrite Hrun. reflexivity.
  - intros before after rule schema context value log Hbefore Hrule Hafter.
    unfold SequentialKeywordEnforcerFactory.process.
    fold (effective_context context).
    cbn [SequentialKeywordEnforcerFactory.rules SequentialKeywordEnforcerFactory.new
         SequentialKeywordEnforcerFactory.validationParser].
    destruct (collect_passing schema (effective_context context) value before Hbefore
                {| SequentialKeywordEnforcerFactory.enforcers := [];
                   SequentialKeywordEnforcerFactory.validateQueue := [];
                   SequentialKeywordEnforcerFactory.coerceQueue := [] |})
      as (q1 & passing & Hrest & Hqueue1 & Hpassing).
    rewrite Hrest.
    destruct Hrule as (c & Hc & Hlog & Hfail). unfold enforcer_of in Hc.
    cbn [SequentialKeywordEnforcerFactory.collect]. rewrite Hc.
    match goal with
    | |- exists _, match SequentialKeywordEnforcerFactory.collect _ _ _ ?q2 with _ => _ end = _ /\ _ =>
        destruct (collect_building schema (effective_context context) after Hafter q2)
          as (q3 & extra & Hcollect & Hqueue3)
    end.
    rewrite Hcollect. eexists. split; [reflexivity |].
    cbn [KeywordRulesEnforcer.validate]. rewrite Hqueue3.
    cbn [SequentialKeywordEnforcerFactory.validateQueue]. rewrite Hqueue1.
    cbn [SequentialKeywordEnforcerFactory.validateQueue app].
    rewrite <- app_assoc. cbn [app].
    unfold mergeValidateSteps.
    rewrite (run_validate_steps_first_invalid
               (ErrorLogValidationParser KeywordError.t) passing extra
               (fun v => ValueConstraint.validate c v) value Hpassing).
    + exact Hlog.
    + rewrite Hlog. simpl. unfold list_length.
      destruct (errors log); [congruence |].
      apply Z.ltb_ge. simpl List.length. lia.
  - intros rules schema context value Hrules.
    unfold SequentialKeywordEnforcerFactory.process.
    fold (effective_context context).
    cbn [SequentialKeywordEnforcerFactory.rules SequentialKeywordEnforcerFactory.new
         SequentialKeywordEnforcerFactory.validationParser].
    destruct (collect_passing schema (effective_context context) value rules Hrules
                {| SequentialKeywordEnforcerFactory.enforcers := [];
                   SequentialKeywordEnforcerFactory.validateQueue := [];
                   SequentialKeywordEnforcerFactory.coerceQueue := [] |})
      as (q1 & passing & Hrest & Hqueue1 & Hpassing).
    specialize (Hrest []). rewrite app_nil_r in Hrest. rewrite Hrest.
    cbn [SequentialKeywordEnforcerFactory.collect]. eexists. split; [reflexivity |].
    cbn [KeywordRulesEnforcer.validate]. rewrite Hqueue1.
    cbn [SequentialKeywordEnforcerFactory.validateQueue app].
    unfold mergeValidateSteps.
    rewrite (run_validate_steps_all_valid
               (ErrorLogValidationParser KeywordError.t) passing value Hpassing).
    reflexivity.
Qed.

(** ** The JSON-schema enforcer factory *)

(** [factory.process(schema).validate(value)] for the default factory. *)
Definition validate_against (schema value : any) : completion KeywordErrorLog :=
  match JSONSchemaEnforcerFactory.process JSONSchemaEnforcerFactory.new schema None with
  | Normal enforcer => Normal (JSONSchemaEnforcerFactory.validate enforcer value)
  | Throw error => Throw error
  end.

(** What a test reads off an error: its keyword, target and priority. *)
Definition summary (log : completion KeywordErrorLog)
  : completion (list (option string * any * option number)) :=
  match log with
  | Normal log =>
      Normal (map (fun error =>
                     (KeywordError.keyword error, KeywordError.target error,
                      KeywordError.priority error))
                  (errors log))
  | Throw error => Throw error
  end.

(** C7, witness: under [{ type: 'boolean', const: true }] the string ['x']
    fails both rules; the log reported is that of [type], the first rule of
    the factory, although [const] has the higher priority. *)
Lemma first_failing_step_governs_witness :
  exists enforcer,
    SequentialKeywordEnforcerFactory.process
      (SequentialKeywordEnforcerFactory.new
         ([] ++ JSONSchemaTypeRule.rule (JSONSchemaTypeRule.new None None)
             :: [JSONSchemaConstRule.rule (JSONSchemaConstRule.new None)])%list)
      (VObj 20%nat [("type", VStr "boolean"); ("const", VBool true)]) None
    = Normal enforcer
    /\ map KeywordError.keyword
         (errors (KeywordRulesEnforcer.validate enforcer (VStr "x")))
       = [Some "type"].
Proof.
  edestruct (proj1 (proj2 (proj2 first_failing_step_governs))
               [] [JSONSchemaConstRule.rule (JSONSchemaConstRule.new None)]
               (JSONSchemaTypeRule.rule (JSONSchemaTypeRule.new None None))
               (VObj 20%nat [("type", VStr "boolean"); ("const", VBool true)])
               None (VStr "x"))
    as (enforcer & Hprocess & Hvalidate).
  - constructor.
  - eexists. split; [reflexivity | split; [reflexivity | discriminate]].
  - constructor; [eexists; reflexivity | constructor].
  - exists enforcer. split; [exact Hprocess |].
    rewrite Hvalidate. reflexivity.
Defined.

(** C10: the enforcer of the schema [false] has no [coerce]; the enforcer
    of the schema [true] has one, which returns its argument and creates
    nothing, and its [validate] returns the empty log for every value. *)
Theorem boolean_schema_enforcers (context : option KeywordEnforcerContext.t) :
  (exists enforcer,
      JSONSchemaEnforcerFactory.process JSONSchemaEnforcerFactory.new
        (VBool false) context = Normal enforcer
      /\ JSONSchemaEnforcerFactory.coerce enforcer = None)
  /\ (exists enforcer coerce,
         JSONSchemaEnforcerFactory.process JSONSchemaEnforcerFactory.new
           (VBool true) context = Normal enforcer
         /\ JSONSchemaEnforcerFactory.coerce enforcer = Some coerce
         /\ (forall value next, coerce value next = (value, next))
         /\ (forall value,
               JSONSchemaEnforcerFactory.validate enforcer value
               = {| errors := [] |})).
Proof.
  split.
  - eexists. split; reflexivity.
  - eexists. eexists. repeat split.
Qed.

(** The schema [false] rejects every value with one error, whose target is
    the value. *)
Lemma false_schema_rejects (value : any) :
  summary (validate_against (VBool false) value) = Normal [(None, value, None)].
Proof. reflexivity. Qed.

(** Under [{ type: ['boolean', 'string'] }] a string is accepted through the
    second branch, and an object is rejected with the log of the first
    branch: the two branches fail with the same priority, 100, and the
    first one met is kept. *)
Lemma boolean_or_string_fork :
  let schema := VObj 20%nat [("type", VArr 21%nat [VStr "boolean"; VStr "string"])] in
  validate_against schema (VStr "x") = Normal {| errors := [] |}
  /\ summary (validate_against schema (VObj 30%nat []))
     = Normal [(Some "type", VObj 30%nat [], Some (of_Z 100))].
Proof. split; reflexivity. Qed.

(** ** Type arrays that name no type *)

Section UnrecognizedTypes.

(** The table of the default [type] rule. *)
Definition default_type_rules : list (string * TypeKeywordRule.t) :=
  createJSONSchemaTypeRules "type" None.

(** An entry of a [type] array that selects no rule of the table: not a
    string, or a string under which the table holds nothing, own or
    inherited. *)
Definition selects_no_rule (item : any) : Prop :=
  forall name, item = VStr name -> table_get default_type_rules name = Absent.

Lemma no_rule_selected (items : list any) :
  Forall selects_no_rule items ->
  filter JSONSchemaTypeRule.is_found
    (map (table_get default_type_rules)
       (flat_map (fun item =>
                    match JSONSchemaTypeRule.type_name item with
                    | Some name => [name]
                    | None => []
                    end) items))
  = [].
Proof.
  induction 1 as [| item items Hitem _ IH]; [reflexivity |].
  cbn [flat_map]. rewrite map_app, filter_app, IH, app_nil_r.
  destruct item; try reflexivity.
  cbn [JSONSchemaTypeRule.type_name map filter].
  rewrite (Hitem s eq_refl). reflexivity.
Qed.

(** C9, as the code has it: a schema object without [const] whose [type] is
    an array of entries that select no rule (the empty array among them)
    gets an enforcer, and that enforcer validates every value with the
    empty log. *)
Theorem unrecognized_types_accept_everything
  (l lt : loc) (props : list (string * any)) (items : list any)
  (context : option KeywordEnforcerContext.t) :
  get_property (VObj l props) "type" = VArr lt items ->
  get_property (VObj l props) "const" = VUndefined ->
  Forall selects_no_rule items ->
  exists enforcer,
    JSONSchemaEnforcerFactory.process JSONSchemaEnforcerFactory.new
      (VObj l props) context = Normal enforcer
    /\ forall value,
         JSONSchemaEnforcerFactory.validate enforcer value = {| errors := [] |}.
Proof.
  intros Htype Hconst Hitems.
  unfold JSONSchemaEnforcerFactory.process.
  unfold SequentialKeywordEnforcerFactory.process.
  cbn [JSONSchemaEnforcerFactory.keywordHandler JSONSchemaEnforcerFactory.new
       SequentialKeywordEnforcerFactory.rules SequentialKeywordEnforcerFactory.new
       SequentialKeywordEnforcerFactory.validationParser
       SequentialKeywordEnforcerFactory.collect
       KeywordRule.getEnforcerFor JSONSchemaTypeRule.rule JSONSchemaConstRule.rule].
  unfold JSONSchemaTypeRule.getEnforcerFor.
  cbn [JSONSchemaTypeRule.keyword JSONSchemaTypeRule.typeRules JSONSchemaTypeRule.new].
  rewrite Htype.
  fold default_type_rules. rewrite (no_rule_selected items Hitems).
  cbn [JSONSchemaTypeRule.enforcers_of].
  unfold JSONSchemaConstRule.getEnforcerFor.
  cbn [JSONSchemaConstRule.keyword JSONSchemaConstRule.new].
  rewrite Hconst. cbn [strict_eq negb].
  eexists. split; [reflexivity |].
  intro value. reflexivity.
Qed.

(** C9, witness: [{ type: ['foo', 3] }]. *)
Lemma unrecognized_types_accept_everything_witness :
  exists enforcer,
    JSONSchemaEnforcerFactory.process JSONSchemaEnforcerFactory.new
      (VObj 20%nat [("type", VArr 21%nat [VStr "foo"; num 3])]) None
    = Normal enforcer
    /\ forall value,
         JSONSchemaEnforcerFactory.validate enforcer value = {| errors := [] |}.
Proof.
  apply (unrecognized_types_accept_everything
           20%nat 21%nat [("type", VArr 21%nat [VStr "foo"; num 3])]
           [VStr "foo"; num 3] None).
  - reflexivity.
  - reflexivity.
  - repeat constructor; intros name H; inversion H; reflexivity.
Defined.

(** C9, counterexample: [{ type: [], const: 1 }] has an empty [type] array,
    and its enforcer rejects 2, with the error of [const]. *)
Lemma empty_type_array_with_const_counterexample :
  summary (validate_against
             (VObj 20%nat [("type", VArr 21%nat []); ("const", num 1)])
             (num 2))
  = Normal [(Some "const", num 2, Some (of_Z 150))].
Proof. reflexivity. Qed.

(** A [type] array that names a member every object inherits, such as
    [constructor], gets no enforcer at all: the call throws. *)
Lemma inherited_type_name_throws :
  validate_against (VObj 20%nat [("type", VArr 21%nat [VStr "constructor"])])
    (num 2)
  = Throw not_a_function.
Proof. reflexivity. Qed.

End UnrecognizedTypes.

(** ** Binary64 arithmetic

    What the stepped enforcer needs of the arithmetic: multiplying and
    dividing by 1 is exact, and [Math.round] returns integers.  The facts
    come from the specification of the primitive operations
    ([mul_spec], [div_spec]) and the validity of every number
    ([Prim2SF_valid]). *)

Section Binary64.


























End Binary64.

(** ** Rounding to a step ([SteppedNumberEnforcer]) *)

Section SteppedNumber.

Lemma unwrap_primitive {ValueType : Type} (this : ValueTypeEnforcer.t ValueType)
  (value : any) :
  String.eqb (typeof value) "object" = false ->
  ValueTypeEnforcer.unwrap this value = value.
Proof.
  intro H. unfold ValueTypeEnforcer.unwrap.
  destruct (ValueTypeEnforcer.valueProperty this); [rewrite H |]; reflexivity.
Qed.

Definition default_number (this : NumberEnforcer.t) : number :=
  match ValueTypeEnforcer.defaultValue this with
  | Some d => d
  | None => of_Z 0
  end.

Lemma NumberEnforcer_coerce_number (this : NumberEnforcer.t) (n : number) :
  NumberEnforcer.coerce this (VNum n)
  = if isNaN n then default_number this else n.
Proof.
  unfold NumberEnforcer.coerce. rewrite unwrap_primitive by reflexivity.
  reflexivity.
Qed.

(** A [NaN] result of the number enforcer is its default value. *)
Lemma NumberEnforcer_coerce_NaN (this : NumberEnforcer.t) (v : any) :
  isNaN (NumberEnforcer.coerce this v) = true ->
  NumberEnforcer.coerce this v = default_number this.
Proof.
  unfold NumberEnforcer.coerce, default_number.
  destruct (isNaN (ToNumber (ValueTypeEnforcer.unwrap this v))) eqn:E;
    [reflexivity | congruence].
Qed.





End SteppedNumber.

(** ** Equivalence to a constant ([isEquivalentTo], [JSONSchemaConstRule]) *)

Section Equivalence.

Lemma depth_element (elems : list any) (x : any) :
  In x elems -> (depth x <= list_max (map depth elems))%nat.
Proof.
  intro Hin.
  pose proof (proj1 (list_max_le (map depth elems) (list_max (map depth elems)))
                (Nat.le_refl _)) as Hall.
  rewrite Forall_forall in Hall. apply Hall. apply in_map. exact Hin.
Qed.

Lemma assoc_get_In {A : Type} (props : list (string * A)) (key : string) (x : A) :
  assoc_get key props = Some x -> exists k, In (k, x) props.
Proof.
  induction props as [| [k y] rest IH]; [discriminate |].
  simpl. destruct (String.eqb k key).
  - intro H. exists k. left. congruence.
  - intro H. destruct (IH H) as [k' Hin]. exists k'. right. exact Hin.
Qed.

Lemma depth_property (props : list (string * any)) (key : string) (x : any) :
  assoc_get key props = Some x ->
  (depth x <= list_max (map (fun p => depth (snd p)) props))%nat.
Proof.
  intro Hget. destruct (assoc_get_In props key x Hget) as [k Hin].
  pose proof (proj1 (list_max_le (map (fun p => depth (snd p)) props)
                       (list_max (map (fun p => depth (snd p)) props)))
                (Nat.le_refl _)) as Hall.
  rewrite Forall_forall in Hall. apply Hall.
  apply (in_map (fun p => depth (snd p)) props (k, x)). exact Hin.
Qed.

(** What [a[key]] reads in an object or an array is less deep than [a]. *)
Lemma depth_get_property (a : any) (key : string) :
  String.eqb (typeof a) "object" && negb (is_nullish a) = true ->
  (depth (get_property a key) < depth a)%nat.
Proof.
  destruct a as [| | | | | l elems | l props]; try discriminate; intros _; simpl.
  - destruct (String.eqb key "length"); [simpl; lia |].
    destruct (array_index_of_key key) as [i |]; [| simpl; lia].
    destruct (nth_in_or_default i elems VUndefined) as [Hin | ->]; [| simpl; lia].
    apply depth_element in Hin. lia.
  - destruct (assoc_get key props) as [x |] eqn:E; [| simpl; lia].
    apply depth_property in E. lia.
Qed.

Lemma first_loop_total (f : string -> option bool) (keys : list string) :
  (forall key, exists r, f key = Some r) ->
  exists r, first_loop f keys = Some r.
Proof.
  intro Hf. induction keys as [| key rest IH]; simpl; [eauto |].
  destruct (Hf key) as [[|] ->]; eauto.
Qed.

Lemma second_loop_total (f : string -> option bool) (keys : list string) :
  (forall key, exists r, f key = Some r) ->
  forall checkedKeys, exists r, second_loop f checkedKeys keys = Some r.
Proof.
  intro Hf. induction keys as [| key rest IH]; intro checked; simpl; [eauto |].
  destruct (existsb (String.eqb key) checked); [apply IH |].
  destruct (Hf key) as [[|] ->]; eauto.
Qed.

(** The recursion of [isEquivalentTo] ends within the depth of [a]. *)
Lemma isEquivalentTo_fuel_enough (fuel : nat) :
  forall a b, (depth a < fuel)%nat ->
  exists answer, isEquivalentTo_fuel fuel a b = Some answer.
Proof.
  induction fuel as [| fuel IH]; intros a b Hdepth; [lia |].
  simpl. destruct (both_objects a b) eqn:Hboth; [| eauto].
  assert (Ha : String.eqb (typeof a) "object" && negb (is_nullish a) = true).
  { unfold both_objects in Hboth.
    destruct (String.eqb (typeof a) "object"), (is_nullish a);
      simpl in *; congruence. }
  assert (Hat : forall key, exists r,
             isEquivalentTo_fuel fuel (get_property a key) (get_property b key)
             = Some r).
  { intro key. apply IH. pose proof (depth_get_property a key Ha). lia. }
  destruct (first_loop_total _ (enumerable_keys a) Hat) as [[|] ->]; [| eauto].
  destruct (second_loop_total _ (enumerable_keys b) Hat (enumerable_keys a))
    as [[|] ->]; eauto.
Qed.

(** Whatever the keys hold, the answer of [isEquivalentTo] is never better
    than that of [===]: after the two loops the function returns [a === b]. *)
Lemma isEquivalentTo_implies_strict_eq (a b : any) :
  isEquivalentTo a b = true -> strict_eq a b = true.
Proof.
  unfold isEquivalentTo. simpl.
  destruct (both_objects a b).
  - destruct (first_loop _ _) as [[|] |]; try discriminate.
    destruct (second_loop _ _ _) as [[|] |]; try discriminate.
    intro H. exact H.
  - intro H. exact H.
Qed.

(** On primitives [isEquivalentTo] is [===]. *)
Lemma isEquivalentTo_primitive (a b : any) :
  both_objects a b = false -> isEquivalentTo a b = strict_eq a b.
Proof. intro H. unfold isEquivalentTo. simpl. rewrite H. reflexivity. Qed.

(** Equality over the own enumerable keys in both directions, identity on
    primitives: deep equality as the specification words it.  A key of [b]
    that [a] does not have reads [undefined] in [a]. *)
Fixpoint deep_equal (a b : any) : bool :=
  let checked_in_b (keys : list string) : bool :=
    forallb (fun key =>
               existsb (String.eqb key) keys
               || strict_eq (get_property a key) (get_property b key))
            (enumerable_keys b) in
  match a with
  | VObj _ props =>
      String.eqb (typeof b) "object" && negb (is_nullish b)
      && forallb (fun p => deep_equal (snd p) (get_property b (fst p))) props
      && checked_in_b (map fst props)
  | VArr _ elems =>
      String.eqb (typeof b) "object" && negb (is_nullish b)
      && (fix each (i : nat) (es : list any) : bool :=
            match es with
            | [] => true
            | e :: rest =>
                deep_equal e (get_property b (digits_of_Z (Z.of_nat i)))
                && each (S i) rest
            end) O elems
      && checked_in_b (enumerable_keys a)
  | _ => strict_eq a b
  end.

End Equivalence.

Section ConstRule.

(** What the [const] rule builds for a schema whose [const] is [constant]:
    the log of [validate] is empty exactly when [isEquivalentTo] answers
    true, it holds one error of priority 150 otherwise, and [coerce] clones
    the constant. *)
Lemma const_rule_enforcer (schema constant : any)
  (context : option KeywordEnforcerContext.t) :
  get_property schema "const" = constant ->
  strict_eq constant VUndefined = false ->
  exists enforcer,
    JSONSchemaConstRule.getEnforcerFor (JSONSchemaConstRule.new None) schema context
    = Normal (Some enforcer)
    /\ (forall target,
          isEquivalentTo target constant = true ->
          ValueConstraint.validate enforcer target = {| errors := [] |})
    /\ (forall target,
          isEquivalentTo target constant = false ->
          exists error,
            ValueConstraint.validate enforcer target = {| errors := [error] |}
            /\ KeywordError.keyword error = Some "const"
            /\ KeywordError.value error = constant
            /\ KeywordError.target error = target
            /\ KeywordError.priority error = Some (of_Z 150))
    /\ exists coerce,
         ValueConstraint.coerce enforcer = Some coerce
         /\ forall target, coerce target = structuredClone constant.
Proof.
  intros Hconst Hdefined. unfold JSONSchemaConstRule.getEnforcerFor.
  cbn [JSONSchemaConstRule.keyword JSONSchemaConstRule.new].
  rewrite Hconst, Hdefined. cbn [negb].
  eexists. split; [reflexivity |]. repeat split.
  - intros target H.
    cbn [ValueConstraint.validate KeywordValueEnforcer.constraint].
    unfold KeywordValueEnforcer.validate.
    cbn [KeywordValueEnforcer.check KeywordValueEnforcer.new].
    rewrite H. reflexivity.
  - intros target H.
    cbn [ValueConstraint.validate KeywordValueEnforcer.constraint].
    unfold KeywordValueEnforcer.validate.
    cbn [KeywordValueEnforcer.check KeywordValueEnforcer.new].
    rewrite H. eexists. repeat split.
  - eexists. split; reflexivity.
Qed.

(** The failing input: the constant is the object [{ x: 0, y: 1 }]; the
    target is another object with the same keys and values. *)
Definition point (l : loc) : any := VObj l [("x", num 0); ("y", num 1)].

(** C3, the code at the failing input: the target is deep-equal to the
    constant, and [validate] reports the error of [const], of priority 150;
    only the constant itself, the same object, is accepted. *)
Theorem const_rejects_equal_object :
  let schema := VObj 20%nat [("const", point 21%nat)] in
  deep_equal (point 22%nat) (point 21%nat) = true
  /\ isEquivalentTo (point 22%nat) (point 21%nat) = false
  /\ summary (validate_against schema (point 22%nat))
     = Normal [(Some "const", point 22%nat, Some (of_Z 150))]
  /\ validate_against schema (point 21%nat) = Normal {| errors := [] |}.
Proof. repeat split. Qed.

(** No object but the constant itself passes: two objects at different
    addresses are never equivalent. *)
Lemma isEquivalentTo_distinct_objects (a b : any) :
  both_objects a b = true -> strict_eq a b = false ->
  isEquivalentTo a b = false.
Proof.
  intros _ Hdistinct. destruct (isEquivalentTo a b) eqn:E; [| reflexivity].
  apply isEquivalentTo_implies_strict_eq in E. congruence.
Qed.

End ConstRule.

(** ** Validity of coerced values (the type enforcers) *)

Section CoerceThenValidate.

(** C4, the code at the failing input: a [StringEnforcer] without default
    value coerces [undefined] to [undefined], since that is what
    [JSON.stringify(undefined)] returns, and does not accept the result.
    ([new NumberEnforcer().coerce('abc')] is 0, and 0 is accepted.) *)
Theorem string_coerce_of_undefined_is_rejected :
  let enforcer := StringEnforcer.new None None in
  StringEnforcer.coerce enforcer VUndefined = VUndefined
  /\ StringEnforcer.validate enforcer (StringEnforcer.coerce enforcer VUndefined)
     = false
  /\ NumberEnforcer.coerce (NumberEnforcer.new None None) (VStr "abc") = of_Z 0
  /\ NumberEnforcer.validate (NumberEnforcer.new None None) (VNum (of_Z 0))
     = true.
Proof. repeat split; vm_compute; reflexivity. Qed.



Lemma boolean_coerce_valid (defaultValue : option bool)
  (valueProperty : option string) (v : any) :
  let enforcer := BooleanEnforcer.new defaultValue valueProperty in
  BooleanEnforcer.validate enforcer (VBool (BooleanEnforcer.coerce enforcer v))
  = true.
Proof. reflexivity. Qed.

Lemma number_coerce_valid (defaultValue : option number)
  (valueProperty : option string) (v : any) :
  let enforcer := NumberEnforcer.new defaultValue valueProperty in
  NumberEnforcer.validate enforcer (VNum (NumberEnforcer.coerce enforcer v))
  = true.
Proof. reflexivity. Qed.

Lemma any_value_coerce_valid (v : any) :
  AnyValueEnforcer.validate (AnyValueEnforcer.coerce v) = true.
Proof. reflexivity. Qed.











(** It does not accept the infinities it returns: the remainder of an
    infinity is [NaN]. *)
Lemma stepped_coerce_of_infinity_is_rejected :
  let enforcer := SteppedNumberEnforcer.new (Some (of_Z 0)) (Some (of_Z 1)) None in
  SteppedNumberEnforcer.coerce enforcer (VStr "Infinity") = POSITIVE_INFINITY
  /\ SteppedNumberEnforcer.validate enforcer (VNum POSITIVE_INFINITY) = false.
Proof. split; vm_compute; reflexivity. Qed.

(** With another step it does not accept every finite number either: with
    the step 0.1, the number 0.3 is coerced to
    0.30000000000000004, whose remainder by 0.1 is not 0. *)
Lemma stepped_coerce_of_three_tenths_is_rejected :
  let enforcer :=
    SteppedNumberEnforcer.new None (Some (nearest (1 # 10) false)) None in
  let once := SteppedNumberEnforcer.coerce enforcer (VNum (nearest (3 # 10) false)) in
  Number_toString once = "0.30000000000000004"
  /\ SteppedNumberEnforcer.validate enforcer (VNum once) = false.
Proof. split; vm_compute; reflexivity. Qed.

End CoerceThenValidate.

(** ** Splitting a schema into alternatives ([JSONSchemaSplitter]) *)

Section Splitter.




(** One new object [{ key: v }] per value, at the addresses from [next]
    on. *)
Fixpoint single_key_objects (key : string) (values : list any) (next : loc)
  : list any :=
  match values with
  | [] => []
  | v :: rest => VObj next [(key, v)] :: single_key_objects key rest (S next)
  end.


Lemma map_alloc_single_key (key : string) (values : list any) :
  forall next,
    map_alloc (fun v => new_object [(key, v)]) values next
    = (single_key_objects key values next, (next + List.length values)%nat).
Proof.
  induction values as [| v rest IH]; intro next; simpl.
  - unfold ret. rewrite Nat.add_0_r. reflexivity.
  - unfold bind, new_object, fresh, ret. unfold bind. rewrite IH.
    f_equal. lia.
Qed.


(** The options that a new [JSONSchemaOptionsFactory] gives for a schema,
    the schema being created first. *)
Definition options_for (make_schema : Alloc any)
  : completion (list (LabeledValue.t JSONSchemaEnforcerFactory.enforcer)) :=
  fst ((schema <- make_schema ;;
        factory <- JSONSchemaOptionsFactory.new None ;;
        SchemaOptionsFactory.process factory schema) first_free_address).



End Splitter.

(** ** Rebuilding an array from the keys of an object ([ArrayEnforcer]) *)

Section ArrayFromKeys.

(** The element that the key sets: the one at the index its numeric cast
    names, when the cast names an array index. *)
Definition cast_index (key : string) : option nat :=
  array_index_of_key (Number_toString (StringToNumber key)).

Definition sets_index (i : nat) (key : string) : bool :=
  match cast_index key with
  | Some j => Nat.eqb j i
  | None => false
  end.

(** The last key, in enumeration order, that sets the element [i]. *)
Definition last_key_at (keys : list string) (i : nat) : option string :=
  find (sets_index i) (rev keys).

(** The length that the keys give the array: one more than the largest
    index set. *)
Definition length_from_keys (keys : list string) : nat :=
  fold_left
    (fun n key => match cast_index key with
                  | Some i => Nat.max n (S i)
                  | None => n
                  end)
    keys O.

Lemma nth_array_set (elems : list any) (i j : nat) (v : any) :
  nth i (array_set elems j v) VUndefined
  = if Nat.eqb i j then v else nth i elems VUndefined.
Proof.
  unfold array_set.
  set (padded := (elems ++ repeat VUndefined (j - List.length elems))%list).
  assert (Hlen : List.length (firstn j padded) = j).
  { apply firstn_length_le. unfold padded.
    rewrite length_app, repeat_length. lia. }
  destruct (Nat.eqb_spec i j) as [-> | Hneq].
  - rewrite app_nth2 by lia. rewrite Hlen, Nat.sub_diag. reflexivity.
  - destruct (Nat.lt_ge_cases i j) as [Hlt | Hge].
    + rewrite app_nth1 by lia. rewrite nth_firstn.
      replace (i <? j)%nat with true by (symmetry; apply Nat.ltb_lt; exact Hlt).
      unfold padded.
      destruct (Nat.lt_ge_cases i (List.length elems)) as [Hin | Hout].
      * apply app_nth1. exact Hin.
      * rewrite app_nth2 by exact Hout.
        rewrite (nth_overflow elems) by exact Hout.
        apply nth_repeat.
    + rewrite app_nth2 by lia. rewrite Hlen.
      replace (i - j)%nat with (S (i - S j)) by lia. cbn [nth].
      rewrite nth_skipn. f_equal. lia.
Qed.

Lemma length_array_set (elems : list any) (j : nat) (v : any) :
  List.length (array_set elems j v) = Nat.max (List.length elems) (S j).
Proof.
  unfold array_set. rewrite length_app. cbn [List.length].
  rewrite length_skipn, firstn_length_le
    by (rewrite length_app, repeat_length; lia).
  lia.
Qed.

(** One turn of the loop over the keys. *)
Definition assign_key (unwrapped : any) (values : list any) (key : string)
  : list any :=
  let index := ToNumber (VStr key) in
  if negb (isNaN index)
  then array_assign values index (get_property unwrapped key)
  else values.

Lemma assign_key_cast (unwrapped : any) (values : list any) (key : string) :
  assign_key unwrapped values key
  = match cast_index key with
    | Some i => array_set values i (get_property unwrapped key)
    | None => values
    end.
Proof.
  unfold assign_key, cast_index, array_assign, isNaN. cbn [ToNumber].
  unfold Number_toString.
  destruct (value_of (StringToNumber key)); reflexivity.
Qed.

Lemma find_last {A : Type} (p : A -> bool) (xs : list A) (x : A) :
  find p (xs ++ [x])%list
  = match find p xs with
    | Some y => Some y
    | None => if p x then Some x else None
    end.
Proof.
  induction xs as [| y ys IH]; simpl; [reflexivity |].
  destruct (p y); [reflexivity | exact IH].
Qed.

Lemma nth_from_keys (unwrapped : any) (keys : list string) (i : nat) :
  forall values,
    nth i (fold_left (assign_key unwrapped) keys values) VUndefined
    = match last_key_at keys i with
      | Some key => get_property unwrapped key
      | None => nth i values VUndefined
      end.
Proof.
  unfold last_key_at.
  induction keys as [| key rest IH]; intro values; [reflexivity |].
  cbn [fold_left rev]. rewrite IH, find_last.
  destruct (find (sets_index i) (rev rest)); [reflexivity |].
  rewrite assign_key_cast. unfold sets_index.
  destruct (cast_index key) as [j |]; [| reflexivity].
  rewrite nth_array_set, (Nat.eqb_sym i j).
  destruct (Nat.eqb j i); reflexivity.
Qed.

Lemma length_from_keys_loop (unwrapped : any) (keys : list string) :
  forall values,
    List.length (fold_left (assign_key unwrapped) keys values)
    = fold_left
        (fun n key => match cast_index key with
                      | Some i => Nat.max n (S i)
                      | None => n
                      end)
        keys (List.length values).
Proof.
  induction keys as [| key rest IH]; intro values; [reflexivity |].
  cbn [fold_left]. rewrite IH, assign_key_cast.
  destruct (cast_index key); [rewrite length_array_set |]; reflexivity.
Qed.

(** The reading of the specification: a key is an index when it is a
    base-10 integer numeral, and is dropped otherwise. *)
Definition base10_index (key : string) : option nat :=
  match read_digits 10 0 O key with
  | (z, S _, EmptyString) => Some (Z.to_nat z)
  | _ => None
  end.

Definition elements_by_base10_index (unwrapped : any) : list any :=
  fold_left
    (fun values key =>
       match base10_index key with
       | Some i => array_set values i (get_property unwrapped key)
       | None => values
       end)
    (enumerable_keys unwrapped) [].

Definition plain_array_enforcer : ArrayEnforcer.t := ArrayEnforcer.new None None.

(** C6, as the code has it.  When the unwrapped value is a plain object,
    [coerce] returns a new array in which the element [i] is the value of
    the last key whose numeric cast names the index [i], and [undefined]
    when there is none, and whose length is one more than the largest index
    so named.  The cast is [Number(key)]: it names an index for ['0'] and
    ['2'], and also for the empty key, for ['1e1'] and for ['0x10']; it
    names none for a word, a negative or a fractional numeral.  The three
    examples of the specification hold. *)
Theorem array_coerce_rebuilds_from_cast_keys :
  (forall (this : ArrayEnforcer.t) (value : any) (l next : loc)
          (props : list (string * any)),
      ValueTypeEnforcer.unwrap this value = VObj l props ->
      exists elems,
        ArrayEnforcer.coerce this value next = (VArr next elems, S next)
        /\ (forall i,
              nth i elems VUndefined
              = match last_key_at (map fst props) i with
                | Some key => get_property (VObj l props) key
                | None => VUndefined
                end)
        /\ List.length elems = length_from_keys (map fst props))
  /\ map cast_index ["0"; "2"; ""; "1e1"; "0x10"; "x"; "-1"; "1.5"]
     = [Some 0; Some 2; Some 0; Some 10; Some 16; None; None; None]%nat
  /\ fst (ArrayEnforcer.coerce plain_array_enforcer
            (VObj 20%nat [("0", VStr "a"); ("2", VStr "c")]) 30%nat)
     = VArr 30%nat [VStr "a"; VUndefined; VStr "c"]
  /\ fst (ArrayEnforcer.coerce plain_array_enforcer (VStr "[1]") 30%nat)
     = VArr 30%nat [num 1]
  /\ fst (ArrayEnforcer.coerce plain_array_enforcer (VStr "z") 30%nat)
     = VArr 30%nat [VStr "z"].
Proof.
  split; [| repeat split].
  intros this value l next props Hunwrapped.
  unfold ArrayEnforcer.coerce. rewrite Hunwrapped.
  exists (ArrayEnforcer.from_keys (VObj l props)).
  split; [reflexivity |].
  change (ArrayEnforcer.from_keys (VObj l props))
    with (fold_left (assign_key (VObj l props)) (map fst props) []).
  split.
  - intro i. rewrite nth_from_keys. destruct (last_key_at _ i); [reflexivity |].
    destruct i; reflexivity.
  - rewrite length_from_keys_loop. reflexivity.
Qed.

(** C6, witness: the object of the tests, [{ '0': 'a', '2': 'c' }]. *)
Lemma array_coerce_rebuilds_from_cast_keys_witness :
  exists elems,
    ArrayEnforcer.coerce plain_array_enforcer
      (VObj 20%nat [("0", VStr "a"); ("2", VStr "c")]) 30%nat
    = (VArr 30%nat elems, 31%nat)
    /\ (forall i,
          nth i elems VUndefined
          = match last_key_at ["0"; "2"] i with
            | Some key =>
                get_property (VObj 20%nat [("0", VStr "a"); ("2", VStr "c")]) key
            | None => VUndefined
            end)
    /\ List.length elems = length_from_keys ["0"; "2"].
Proof.
  exact (proj1 array_coerce_rebuilds_from_cast_keys
           plain_array_enforcer
           (VObj 20%nat [("0", VStr "a"); ("2", VStr "c")]) 20%nat 30%nat
           [("0", VStr "a"); ("2", VStr "c")] eq_refl).
Defined.

(** C6, counterexample: the key ['0x10'] is no base-10 integer, and the
    empty key is no number at all; read as the specification says, both
    are dropped and the array stays empty.  The code sets the element 16
    for the first and the element 0 for the second. *)
Lemma array_coerce_hexadecimal_key_counterexample :
  fst (ArrayEnforcer.coerce plain_array_enforcer
         (VObj 20%nat [("0x10", VStr "a")]) 30%nat)
  = VArr 30%nat (repeat VUndefined 16 ++ [VStr "a"])%list
  /\ elements_by_base10_index (VObj 20%nat [("0x10", VStr "a")]) = []
  /\ fst (ArrayEnforcer.coerce plain_array_enforcer
            (VObj 20%nat [("", VStr "e")]) 30%nat)
     = VArr 30%nat [VStr "e"]
  /\ elements_by_base10_index (VObj 20%nat [("", VStr "e")]) = [].
Proof. repeat split. Qed.

End ArrayFromKeys.

(** ** Independence of a structured clone *)

Section Clone.

(** Induction on values, with the hypothesis for every element of an array
    and every property of an object. *)
Fixpoint any_induction (P : any -> Prop)
  (Hundefined : P VUndefined) (Hnull : P VNull)
  (Hbool : forall b, P (VBool b)) (Hnum : forall n, P (VNum n))
  (Hstr : forall s, P (VStr s))
  (Harr : forall l elems, Forall P elems -> P (VArr l elems))
  (Hobj : forall l props, Forall (fun p => P (snd p)) props -> P (VObj l props))
  (v : any) {struct v} : P v :=
  match v with
  | VUndefined => Hundefined
  | VNull => Hnull
  | VBool b => Hbool b
  | VNum n => Hnum n
  | VStr s => Hstr s
  | VArr l elems =>
      Harr l elems
        ((fix all (es : list any) : Forall P es :=
            match es with
            | [] => Forall_nil P
            | e :: rest =>
                Forall_cons e
                  (any_induction P Hundefined Hnull Hbool Hnum Hstr Harr Hobj e)
                  (all rest)
            end) elems)
  | VObj l props =>
      Hobj l props
        ((fix all (ps : list (string * any)) : Forall (fun p => P (snd p)) ps :=
            match ps with
            | [] => Forall_nil _
            | p :: rest =>
                Forall_cons p
                  (any_induction P Hundefined Hnull Hbool Hnum Hstr Harr Hobj (snd p))
                  (all rest)
            end) props)
  end.

(** The addresses of the objects and arrays a value is made of. *)
Fixpoint addresses (v : any) : list loc :=
  match v with
  | VArr l elems => l :: flat_map addresses elems
  | VObj l props => l :: flat_map (fun p => addresses (snd p)) props
  | _ => []
  end.

(** Every address of [v] lies in [[base, next)]. *)
Definition within (base next : loc) (v : any) : Prop :=
  forall a, In a (addresses v) -> (base <= a < next)%nat.

(** The copies made so far were all made at addresses in [[base, next)]. *)
Definition copies_within (base next : loc) (memo : list (loc * any)) : Prop :=
  forall l copy, In (l, copy) memo -> within base next copy.

Lemma within_weaken (base next next' : loc) (v : any) :
  (next <= next')%nat -> within base next v -> within base next' v.
Proof. intros Hle H a Ha. specialize (H a Ha). lia. Qed.

Lemma copies_within_weaken (base next next' : loc) (memo : list (loc * any)) :
  (next <= next')%nat -> copies_within base next memo ->
  copies_within base next' memo.
Proof. intros Hle H l c Hin. eapply within_weaken; eauto. Qed.

Lemma assoc_loc_In (l : loc) (memo : list (loc * any)) (copy : any) :
  assoc_loc l memo = Some copy -> exists l', In (l', copy) memo.
Proof.
  induction memo as [| [l' c] rest IH]; [discriminate |].
  simpl. destruct (Nat.eqb l l').
  - intro H. exists l'. left. congruence.
  - intro H. destruct (IH H) as [l'' Hin]. exists l''. right. exact Hin.
Qed.

(** What holds of a copier on a value: started within [[base, next)], it
    ends within [[base, next')], and so does the copy. *)
Definition copies_fresh (base : loc) (v : any) : Prop :=
  forall memo next copy memo' next',
    (base <= next)%nat -> copies_within base next memo ->
    clone v memo next = (copy, memo', next') ->
    (next <= next')%nat /\ copies_within base next' memo'
    /\ within base next' copy.

Lemma clone_elements_fresh (base : loc) (elems : list any) :
  Forall (copies_fresh base) elems ->
  forall memo next elems' memo' next',
    (base <= next)%nat -> copies_within base next memo ->
    clone_elements clone elems memo next = (elems', memo', next') ->
    (next <= next')%nat /\ copies_within base next' memo'
    /\ Forall (within base next') elems'.
Proof.
  induction 1 as [| e rest He _ IH];
    intros memo next elems' memo' next' Hbase Hmemo Hclone; simpl in Hclone.
  - injection Hclone as <- <- <-. split; [lia | split; [exact Hmemo | constructor]].
  - destruct (clone e memo next) as [[e' memo1] next1] eqn:E1.
    destruct (clone_elements clone rest memo1 next1) as [[rest' memo2] next2] eqn:E2.
    injection Hclone as <- <- <-.
    destruct (He _ _ _ _ _ Hbase Hmemo E1) as (Hle1 & Hmemo1 & He').
    destruct (IH _ _ _ _ _ (Nat.le_trans _ _ _ Hbase Hle1) Hmemo1 E2)
      as (Hle2 & Hmemo2 & Hrest').
    split; [lia | split; [exact Hmemo2 |]].
    constructor; [eapply within_weaken; eauto | exact Hrest'].
Qed.

Lemma clone_properties_fresh (base : loc) (props : list (string * any)) :
  Forall (fun p => copies_fresh base (snd p)) props ->
  forall memo next props' memo' next',
    (base <= next)%nat -> copies_within base next memo ->
    clone_properties clone props memo next = (props', memo', next') ->
    (next <= next')%nat /\ copies_within base next' memo'
    /\ Forall (fun p => within base next' (snd p)) props'.
Proof.
  induction 1 as [| p rest Hp _ IH];
    intros memo next props' memo' next' Hbase Hmemo Hclone; simpl in Hclone.
  - injection Hclone as <- <- <-. split; [lia | split; [exact Hmemo | constructor]].
  - destruct (clone (snd p) memo next) as [[x' memo1] next1] eqn:E1.
    destruct (clone_properties clone rest memo1 next1)
      as [[rest' memo2] next2] eqn:E2.
    injection Hclone as <- <- <-.
    destruct (Hp _ _ _ _ _ Hbase Hmemo E1) as (Hle1 & Hmemo1 & Hx').
    destruct (IH _ _ _ _ _ (Nat.le_trans _ _ _ Hbase Hle1) Hmemo1 E2)
      as (Hle2 & Hmemo2 & Hrest').
    split; [lia | split; [exact Hmemo2 |]].
    constructor; [eapply within_weaken; eauto | exact Hrest'].
Qed.

Lemma within_flat_map {A : Type} (f : A -> any) (base next : loc) (xs : list A) :
  Forall (fun x => within base next (f x)) xs ->
  forall a, In a (flat_map (fun x => addresses (f x)) xs) ->
  (base <= a < next)%nat.
Proof.
  intros Hall a Ha. apply in_flat_map in Ha. destruct Ha as (x & Hx & Hax).
  rewrite Forall_forall in Hall. exact (Hall x Hx a Hax).
Qed.

Lemma clone_fresh (base : loc) (v : any) : copies_fresh base v.
Proof.
  induction v as [| | b | n | s | l elems IH | l props IH] using any_induction;
    intros memo next copy memo' next' Hbase Hmemo Hclone;
    try (injection Hclone as <- <- <-;
         split; [lia | split; [exact Hmemo | intros a []]]).
  - cbn [clone] in Hclone. destruct (assoc_loc l memo) as [c |] eqn:Ememo.
    + injection Hclone as <- <- <-.
      split; [lia | split; [exact Hmemo |]].
      destruct (assoc_loc_In _ _ _ Ememo) as [l' Hin]. exact (Hmemo _ _ Hin).
    + destruct (clone_elements clone elems memo (S next))
        as [[elems' memo1] next1] eqn:E.
      injection Hclone as <- <- <-.
      destruct (clone_elements_fresh base elems IH memo (S next) _ _ _
                  ltac:(lia)
                  (copies_within_weaken _ _ _ _ (Nat.le_succ_diag_r next) Hmemo) E)
        as (Hle & Hmemo1 & Helems').
      assert (Hcopy : within base next1 (VArr next elems')).
      { intros a [<- | Ha]; [lia |].
        exact (within_flat_map (fun x => x) base next1 elems' Helems' a Ha). }
      split; [lia | split; [| exact Hcopy]].
      intros l' c [Heq | Hin]; [| exact (Hmemo1 _ _ Hin)].
      injection Heq as _ <-. exact Hcopy.
  - cbn [clone] in Hclone. destruct (assoc_loc l memo) as [c |] eqn:Ememo.
    + injection Hclone as <- <- <-.
      split; [lia | split; [exact Hmemo |]].
      destruct (assoc_loc_In _ _ _ Ememo) as [l' Hin]. exact (Hmemo _ _ Hin).
    + destruct (clone_properties clone props memo (S next))
        as [[props' memo1] next1] eqn:E.
      injection Hclone as <- <- <-.
      destruct (clone_properties_fresh base props IH memo (S next) _ _ _
                  ltac:(lia)
                  (copies_within_weaken _ _ _ _ (Nat.le_succ_diag_r next) Hmemo) E)
        as (Hle & Hmemo1 & Hprops').
      assert (Hcopy : within base next1 (VObj next props')).
      { intros a [<- | Ha]; [lia |].
        exact (within_flat_map snd base next1 props' Hprops' a Ha). }
      split; [lia | split; [| exact Hcopy]].
      intros l' c [Heq | Hin]; [| exact (Hmemo1 _ _ Hin)].
      injection Heq as _ <-. exact Hcopy.
Qed.

(** [object[key] = x] done in place on the object at address [l], as it
    shows in a value that may hold that object. *)
Fixpoint write (l : loc) (key : string) (x : any) (v : any) : any :=
  match v with
  | VArr l' elems => VArr l' (map (write l key x) elems)
  | VObj l' props =>
      let props' := map (fun p => (fst p, write l key x (snd p))) props in
      VObj l' (if Nat.eqb l l' then object_set props' key x else props')
  | primitive => primitive
  end.

Lemma write_elsewhere (l : loc) (key : string) (x : any) (v : any) :
  ~ In l (addresses v) -> write l key x v = v.
Proof.
  induction v as [| | b | n | s | l' elems IH | l' props IH] using any_induction;
    intro Hnot; try reflexivity; cbn [write addresses] in *;
    rewrite Forall_forall in IH.
  - f_equal. rewrite <- (map_id elems) at 2. apply map_ext_in.
    intros e He. apply IH; [exact He |].
    intro Hin. apply Hnot. right. apply in_flat_map. exists e. auto.
  - assert (Hl : Nat.eqb l l' = false)
      by (apply Nat.eqb_neq; intros ->; apply Hnot; left; reflexivity).
    rewrite Hl. f_equal. rewrite <- (map_id props) at 2. apply map_ext_in.
    intros [k y] Hp. cbn [fst snd]. f_equal.
    apply (IH (k, y) Hp).
    intro Hin. apply Hnot. right. apply in_flat_map. exists (k, y). auto.
Qed.

(** The copy that [structuredClone] returns lives at addresses from the
    next free one on; the constant, which was there before, lives below it.
    So a write to any object of the copy leaves the constant as it was. *)
Lemma structuredClone_is_independent (constant : any) (next : loc) :
  within O next constant ->
  let copy := fst (structuredClone constant next) in
  within next (snd (structuredClone constant next)) copy
  /\ forall l key x,
       In l (addresses copy) -> write l key x constant = constant.
Proof.
  intros Hconstant copy. unfold copy, structuredClone.
  destruct (clone constant [] next) as [[c memo] next'] eqn:E. cbn [fst snd].
  destruct (clone_fresh next constant [] next c memo next' (Nat.le_refl _)
              ltac:(intros l x []) E) as (Hle & _ & Hc).
  split; [exact Hc |].
  intros l key x Hl. apply write_elsewhere.
  intro Hin. specialize (Hconstant l Hin). specialize (Hc l Hl). lia.
Qed.

End Clone.

(** * Further properties of the engine *)

(** A name that no object inherits: [keyword in source] and
    [source[keyword]] then look at the properties of [source] itself only. *)
Definition own_name (keyword : string) : Prop :=
  existsb (String.eqb keyword) Object_prototype_keys = false.

(** The inputs on which [unwrap] looks at own properties only: the
    enforcer has no value property, or the input is no object, or it has
    the value property itself, or it is a plain object and the value
    property is not a name that every object inherits. *)
Definition unwraps_own {ValueType : Type} (this : ValueTypeEnforcer.t ValueType)
  (value : any) : Prop :=
  match ValueTypeEnforcer.valueProperty this with
  | None => True
  | Some property =>
      match value with
      | VObj _ _ => has_property value property = true \/ own_name property
      | VArr _ _ => has_property value property = true
      | _ => True
      end
  end.

(** ** Merging coercion steps ([mergeCoerceSteps]) *)

Section MergeCoerceSteps.


End MergeCoerceSteps.

(** ** What a fork reports ([KeywordEnforcerFork.validate]) *)

Section ForkReports.

Definition passes (target : any) (branch : KeywordConstraint) : Prop :=
  errors (ValueConstraint.validate branch target) = [].

Lemma passes_dec (target : any) (branch : KeywordConstraint) :
  {passes target branch} + {fails branch target}.
Proof.
  unfold passes, fails.
  destruct (errors (ValueConstraint.validate branch target));
    [left; reflexivity | right; discriminate].
Qed.

(** When every branch fails, the loop returns the log it holds already or
    the log of one of the branches, and that log has errors. *)
Lemma validate_loop_all_fail (branches : list KeywordConstraint) (target : any) :
  Forall (fun b => fails b target) branches ->
  forall result lowestPriority,
    match result with Some log => errors log <> [] | None => branches <> [] end ->
    let log := KeywordEnforcerFork.validate_loop branches target result lowestPriority in
    errors log <> []
    /\ (result = Some log
        \/ exists branch, In branch branches
                          /\ log = ValueConstraint.validate branch target).
Proof.
  induction 1 as [| b rest Hb _ IH]; intros result lowestPriority Hresult.
  - destruct result as [log |]; [| congruence].
    cbn. split; [exact Hresult | left; reflexivity].
  - cbn [KeywordEnforcerFork.validate_loop]. unfold fails in Hb.
    destruct (errors (ValueConstraint.validate b target)) as [| e es] eqn:E;
      [congruence |].
    unfold list_length. cbn [List.length].
    replace (Z.of_nat (S (List.length es)) <? 1) with false
      by (symmetry; apply Z.ltb_ge; lia).
    assert (Hb' : errors (ValueConstraint.validate b target) <> [])
      by (rewrite E; discriminate).
    assert (Hkeep :
              forall priority,
                let log := KeywordEnforcerFork.validate_loop rest target
                             (Some (ValueConstraint.validate b target)) priority in
                errors log <> []
                /\ (result = Some log
                    \/ exists branch, In branch (b :: rest)
                                      /\ log = ValueConstraint.validate branch target)).
    { intro priority. destruct (IH (Some (ValueConstraint.validate b target)) priority Hb')
        as [Herrors [Hsame | (branch & Hin & Hlog)]].
      - split; [exact Herrors |]. right. exists b. split; [left; reflexivity |].
        congruence.
      - split; [exact Herrors |]. right. exists branch. split; [right; exact Hin | exact Hlog]. }
    destruct result as [held |]; [| apply Hkeep].
    destruct (num_lt _ lowestPriority); [apply Hkeep |].
    destruct (IH (Some held) lowestPriority Hresult)
      as [Herrors [Hsame | (branch & Hin & Hlog)]].
    + split; [exact Herrors | left; exact Hsame].
    + split; [exact Herrors |]. right. exists branch. split; [right; exact Hin | exact Hlog].
Qed.

(** Either some branch passes, and then there is a first one, or every
    branch fails. *)
Lemma first_passing_branch (target : any) (branches : list KeywordConstraint) :
  (exists before branch after,
      branches = (before ++ branch :: after)%list
      /\ Forall (fun b => fails b target) before
      /\ passes target branch)
  \/ Forall (fun b => fails b target) branches.
Proof.
  induction branches as [| b rest IH]; [right; constructor |].
  destruct (passes_dec target b) as [Hpass | Hfail].
  - left. exists [], b, rest. repeat split; [constructor | exact Hpass].
  - destruct IH as [(before & branch & after & -> & Hbefore & Hpass) | Hall].
    + left. exists (b :: before), branch, after.
      repeat split; [constructor; assumption | exact Hpass].
    + right. constructor; assumption.
Qed.

(** A fork reports no error exactly when it has no branch or one of its
    branches reports none, and its [coerce] then applies the default
    coercion; a fork with branches always returns the log of one of them,
    never a log of its own making. *)
Theorem fork_validate_reports (this : KeywordEnforcerFork.t) (target : any) :
  (errors (KeywordEnforcerFork.validate this target) = []
   <-> KeywordEnforcerFork.branches this = []
       \/ Exists (passes target) (KeywordEnforcerFork.branches this))
  /\ (errors (KeywordEnforcerFork.validate this target) = [] ->
      KeywordEnforcerFork.coerce this target
      = KeywordEnforcerFork.defaultCoerce this target)
  /\ (KeywordEnforcerFork.branches this <> [] ->
      exists branch,
        In branch (KeywordEnforcerFork.branches this)
        /\ KeywordEnforcerFork.validate this target
           = ValueConstraint.validate branch target).
Proof.
  split; [| split;
            [intro H; unfold KeywordEnforcerFork.coerce; rewrite H; reflexivity |]];
  unfold KeywordEnforcerFork.validate.
  - destruct (first_passing_branch target (KeywordEnforcerFork.branches this))
      as [(before & branch & after & Hbranches & Hbefore & Hpass) | Hall].
    + rewrite Hbranches.
      rewrite (validate_loop_first_valid before after branch target Hbefore Hpass).
      split; [| intros _; exact Hpass].
      intros _. right. apply Exists_exists. exists branch.
      split; [apply in_elt | exact Hpass].
    + destruct (KeywordEnforcerFork.branches this) as [| b rest] eqn:Hbranches.
      * cbn. split; [left; reflexivity | reflexivity].
      * destruct (validate_loop_all_fail (b :: rest) target Hall None POSITIVE_INFINITY
                    ltac:(discriminate))
          as [Herrors _].
        split; [intro H; contradiction |].
        intros [H | H]; [discriminate |].
        apply Exists_exists in H. destruct H as (x & Hin & Hx).
        rewrite Forall_forall in Hall. specialize (Hall x Hin).
        unfold fails, passes in *. contradiction.
  - intro Hsome.
    destruct (first_passing_branch target (KeywordEnforcerFork.branches this))
      as [(before & branch & after & Hbranches & Hbefore & Hpass) | Hall].
    + rewrite Hbranches.
      rewrite (validate_loop_first_valid before after branch target Hbefore Hpass).
      exists branch. split; [apply in_elt | reflexivity].
    + destruct (validate_loop_all_fail _ target Hall None POSITIVE_INFINITY Hsome)
        as [_ [Hnone | Hbranch]]; [discriminate | exact Hbranch].
Qed.

End ForkReports.

(** ** The type enforcers on values they accept *)

Section TypeEnforcers.

(** A value that its enforcer accepts is returned by [coerce] as it is:
    the same boolean, the same string, the same number unless it is [NaN],
    the same array (when no property is to be unwrapped) and the same
    object, no copy being made. *)
Theorem accepted_values_are_kept :
  (forall (defaultValue : option bool) (valueProperty : option string) (v : any),
      let this := BooleanEnforcer.new defaultValue valueProperty in
      BooleanEnforcer.validate this v = true ->
      VBool (BooleanEnforcer.coerce this v) = v)
  /\ (forall (defaultValue valueProperty : option string) (v : any),
         let this := StringEnforcer.new defaultValue valueProperty in
         StringEnforcer.validate this v = true ->
         StringEnforcer.coerce this v = v)
  /\ (forall (defaultValue : option number) (valueProperty : option string)
             (v : any),
         let this := NumberEnforcer.new defaultValue valueProperty in
         NumberEnforcer.validate this v = true ->
         (forall n, v = VNum n -> isNaN n = false) ->
         VNum (NumberEnforcer.coerce this v) = v)
  /\ (forall (defaultValue : option array_data) (v : any) (next : loc),
         let this := ArrayEnforcer.new defaultValue None in
         ArrayEnforcer.validate this v = true ->
         ArrayEnforcer.coerce this v next = (v, next))
  /\ (forall (defaultValue : option object_data) (valueProperty : option string)
             (v : any) (next : loc),
         let this := ObjectEnforcer.new defaultValue valueProperty in
         ObjectEnforcer.validate this v = true ->
         ObjectEnforcer.coerce this v next = (v, next)).
Proof.
  repeat split.
  - intros defaultValue valueProperty v this H.
    destruct v; try discriminate H.
    unfold BooleanEnforcer.coerce. rewrite unwrap_primitive by reflexivity.
    cbn. destruct defaultValue; reflexivity.
  - intros defaultValue valueProperty v this H.
    destruct v; try discriminate H.
    unfold StringEnforcer.coerce. rewrite unwrap_primitive by reflexivity.
    reflexivity.
  - intros defaultValue valueProperty v this H Hnan.
    destruct v; try discriminate H.
    rewrite NumberEnforcer_coerce_number, (Hnan n eq_refl). reflexivity.
  - intros defaultValue v next this H.
    destruct v; try discriminate H. reflexivity.
  - intros defaultValue valueProperty v next this H.
    destruct v; try discriminate H. reflexivity.
Qed.

(** The number enforcer accepts [NaN], which is a number, and replaces it:
    what [coerce] returns is [NaN] only when the default value is. *)
Theorem number_coerce_NaN_is_the_default (defaultValue : option number)
  (valueProperty : option string) (v : any) :
  let this := NumberEnforcer.new defaultValue valueProperty in
  isNaN (NumberEnforcer.coerce this v) = true ->
  exists d, defaultValue = Some d /\ isNaN d = true
            /\ NumberEnforcer.coerce this v = d
            /\ NumberEnforcer.validate this (VNum d) = true.
Proof.
  intros this H. pose proof (NumberEnforcer_coerce_NaN this v H) as Hd.
  unfold default_number in Hd. cbn in Hd.
  destruct defaultValue as [d |].
  - exists d. repeat split; [congruence | exact Hd].
  - rewrite Hd in H. discriminate H.
Qed.

Lemma number_coerce_NaN_is_the_default_witness :
  exists d, Some nan = Some d /\ isNaN d = true
            /\ NumberEnforcer.coerce (NumberEnforcer.new (Some nan) None) VUndefined = d
            /\ NumberEnforcer.validate (NumberEnforcer.new (Some nan) None) (VNum d) = true.
Proof.
  exact (number_coerce_NaN_is_the_default (Some nan) None VUndefined eq_refl).
Defined.



(** What the object enforcer wraps under its value property, an enforcer
    with the same value property unwraps: a value that is neither an
    object nor a string is put into a new object under that one key, and
    [unwrap] reads it back. *)
Theorem object_wrap_then_unwrap (property : string) (v : any) (next : loc)
  (T : Type) (typeName : string) (defaultValue : option T) :
  match v with VUndefined | VNull | VBool _ | VNum _ => True | _ => False end ->
  let wrapped :=
    ObjectEnforcer.coerce (ObjectEnforcer.new None (Some property)) v next in
  wrapped = (VObj next [(property, v)], S next)
  /\ ValueTypeEnforcer.unwrap
       {| ValueTypeEnforcer.typeName := typeName;
          ValueTypeEnforcer.defaultValue := defaultValue;
          ValueTypeEnforcer.valueProperty := Some property |}
       (fst wrapped)
     = v.
Proof.
  intros Hv wrapped.
  assert (Hwrapped : wrapped = (VObj next [(property, v)], S next))
    by (destruct v; try contradiction; reflexivity).
  split; [exact Hwrapped |]. rewrite Hwrapped.
  unfold ValueTypeEnforcer.unwrap. cbn. rewrite String.eqb_refl. reflexivity.
Qed.

Lemma object_wrap_then_unwrap_witness :
  let wrapped :=
    ObjectEnforcer.coerce (ObjectEnforcer.new None (Some "value")) (num 3) 20%nat in
  wrapped = (VObj 20%nat [("value", num 3)], 21%nat)
  /\ ValueTypeEnforcer.unwrap (NumberEnforcer.new None (Some "value")) (fst wrapped)
     = num 3.
Proof.
  exact (object_wrap_then_unwrap "value" (num 3) 20%nat number "number" None I).
Defined.


End TypeEnforcers.

(** ** What counts as a missing value *)

Section MissingValues.

Lemma unwrap_missing {ValueType : Type} (this : ValueTypeEnforcer.t ValueType)
  (value : any) :
  is_nullish value = true -> ValueTypeEnforcer.unwrap this value = value.
Proof.
  intro H. unfold ValueTypeEnforcer.unwrap.
  destruct (ValueTypeEnforcer.valueProperty this); [| reflexivity].
  rewrite H, andb_false_r. reflexivity.
Qed.

(** [null] is a missing value for the boolean and the string enforcer,
    which answer it with their default value, but not for the number
    enforcer: that one casts first and falls back on its default only when
    the cast is [NaN], so [undefined] gets the default while [null],
    [false] and a blank string become 0 and [true] becomes 1, whatever the
    default value is. *)
Theorem null_is_missing_except_for_numbers (valueProperty : option string) :
  (forall d : bool,
      let this := BooleanEnforcer.new (Some d) valueProperty in
      BooleanEnforcer.coerce this VNull = d
      /\ BooleanEnforcer.coerce this VUndefined = d)
  /\ (forall d : string,
         let this := StringEnforcer.new (Some d) valueProperty in
         StringEnforcer.coerce this VNull = VStr d
         /\ StringEnforcer.coerce this VUndefined = VStr d)
  /\ (forall d : number,
         let this := NumberEnforcer.new (Some d) valueProperty in
         NumberEnforcer.coerce this VUndefined = d
         /\ NumberEnforcer.coerce this VNull = of_Z 0
         /\ NumberEnforcer.coerce this (VBool false) = of_Z 0
         /\ NumberEnforcer.coerce this (VBool true) = of_Z 1
         /\ forall s, trim s = EmptyString ->
                      NumberEnforcer.coerce this (VStr s) = of_Z 0).
Proof.
  split; [| split].
  - intros d this. split;
      unfold BooleanEnforcer.coerce; rewrite unwrap_missing by reflexivity;
      reflexivity.
  - intros d this. split;
      unfold StringEnforcer.coerce; rewrite unwrap_missing by reflexivity;
      reflexivity.
  - intros d this.
    split; [| split];
      try (unfold NumberEnforcer.coerce; rewrite unwrap_missing by reflexivity;
           reflexivity).
    split; [| split];
      try (unfold NumberEnforcer.coerce; rewrite unwrap_primitive by reflexivity;
           reflexivity).
    intros s Hs. unfold NumberEnforcer.coerce.
    rewrite unwrap_primitive by reflexivity.
    cbn [ToNumber]. unfold StringToNumber. rewrite Hs. reflexivity.
Qed.

End MissingValues.

(** ** Default values are handed out as copies *)

Section DefaultsAreCopied.

(** A value with its addresses erased: what it holds, not where. *)
Fixpoint content (v : any) : any :=
  match v with
  | VArr _ elems => VArr O (map content elems)
  | VObj _ props => VObj O (map (fun p => (fst p, content (snd p))) props)
  | primitive => primitive
  end.

(** Cloning a value none of whose objects is met twice, and none of which
    has been copied yet, keeps its content and records copies of its own
    objects only. *)
Definition clone_keeps_content (v : any) : Prop :=
  forall memo next copy memo' next',
    (forall a, In a (addresses v) -> assoc_loc a memo = None) ->
    NoDup (addresses v) ->
    clone v memo next = (copy, memo', next') ->
    content copy = content v
    /\ forall a, assoc_loc a memo' <> None ->
                 assoc_loc a memo <> None \/ In a (addresses v).

Lemma NoDup_app_parts {A : Type} (xs ys : list A) :
  NoDup (xs ++ ys) ->
  NoDup xs /\ NoDup ys /\ forall a, In a xs -> ~ In a ys.
Proof.
  induction xs as [| x xs IH]; intro H.
  - split; [constructor |]. split; [exact H |]. intros a [].
  - cbn in H. inversion H as [| x' xs' Hx Hrest]; subst.
    destruct (IH Hrest) as (Hxs & Hys & Hdisjoint).
    split; [constructor; [| exact Hxs] |].
    + intro Hin. apply Hx. apply in_or_app. left. exact Hin.
    + split; [exact Hys |].
      intros a [-> | Hin] Hy.
      * apply Hx. apply in_or_app. right. exact Hy.
      * exact (Hdisjoint a Hin Hy).
Qed.

Lemma clone_elements_content (elems : list any) :
  Forall clone_keeps_content elems ->
  forall memo next elems' memo' next',
    (forall a, In a (flat_map addresses elems) -> assoc_loc a memo = None) ->
    NoDup (flat_map addresses elems) ->
    clone_elements clone elems memo next = (elems', memo', next') ->
    map content elems' = map content elems
    /\ forall a, assoc_loc a memo' <> None ->
                 assoc_loc a memo <> None \/ In a (flat_map addresses elems).
Proof.
  induction 1 as [| e rest He _ IH]; intros memo next elems' memo' next' Hmemo Hdup E.
  - cbn in E. inversion E; subst. split; [reflexivity | intros a H; left; exact H].
  - cbn [clone_elements] in E. cbn [flat_map] in Hmemo, Hdup.
    destruct (clone e memo next) as [[e' memo1] next1] eqn:E1.
    destruct (clone_elements clone rest memo1 next1) as [[rest' memo2] next2] eqn:E2.
    inversion E; subst. clear E.
    destruct (NoDup_app_parts _ _ Hdup) as (Hde & Hdrest & Hdisjoint).
    destruct (He memo next e' memo1 next1
                (fun a Ha => Hmemo a (in_or_app _ _ a (or_introl Ha))) Hde E1)
      as [Hce Hgrow1].
    assert (Hmemo1 : forall a, In a (flat_map addresses rest) ->
                               assoc_loc a memo1 = None).
    { intros a Ha. destruct (assoc_loc a memo1) eqn:Ea; [| reflexivity].
      destruct (Hgrow1 a ltac:(rewrite Ea; discriminate)) as [Hold | Hin].
      - exfalso. apply Hold. apply Hmemo. apply in_or_app. right. exact Ha.
      - exfalso. exact (Hdisjoint a Hin Ha). }
    destruct (IH memo1 next1 rest' memo' next' Hmemo1 Hdrest E2) as [Hcrest Hgrow2].
    split.
    + cbn [map]. rewrite Hce, Hcrest. reflexivity.
    + intros a Ha. cbn [flat_map].
      destruct (Hgrow2 a Ha) as [H1 | Hin].
      * destruct (Hgrow1 a H1) as [H0 | Hin]; [left; exact H0 |].
        right. apply in_or_app. left. exact Hin.
      * right. apply in_or_app. right. exact Hin.
Qed.

Lemma clone_properties_content (props : list (string * any)) :
  Forall (fun p => clone_keeps_content (snd p)) props ->
  forall memo next props' memo' next',
    (forall a, In a (flat_map (fun p => addresses (snd p)) props) ->
               assoc_loc a memo = None) ->
    NoDup (flat_map (fun p => addresses (snd p)) props) ->
    clone_properties clone props memo next = (props', memo', next') ->
    map (fun p => (fst p, content (snd p))) props'
    = map (fun p => (fst p, content (snd p))) props
    /\ forall a, assoc_loc a memo' <> None ->
                 assoc_loc a memo <> None
                 \/ In a (flat_map (fun p => addresses (snd p)) props).
Proof.
  induction 1 as [| p rest Hp _ IH]; intros memo next props' memo' next' Hmemo Hdup E.
  - cbn in E. inversion E; subst. split; [reflexivity | intros a H; left; exact H].
  - cbn [clone_properties] in E. cbn [flat_map] in Hmemo, Hdup.
    destruct (clone (snd p) memo next) as [[x' memo1] next1] eqn:E1.
    destruct (clone_properties clone rest memo1 next1)
      as [[rest' memo2] next2] eqn:E2.
    inversion E; subst. clear E.
    destruct (NoDup_app_parts _ _ Hdup) as (Hde & Hdrest & Hdisjoint).
    destruct (Hp memo next x' memo1 next1
                (fun a Ha => Hmemo a (in_or_app _ _ a (or_introl Ha))) Hde E1)
      as [Hce Hgrow1].
    assert (Hmemo1 : forall a,
               In a (flat_map (fun p => addresses (snd p)) rest) ->
               assoc_loc a memo1 = None).
    { intros a Ha. destruct (assoc_loc a memo1) eqn:Ea; [| reflexivity].
      destruct (Hgrow1 a ltac:(rewrite Ea; discriminate)) as [Hold | Hin].
      - exfalso. apply Hold. apply Hmemo. apply in_or_app. right. exact Ha.
      - exfalso. exact (Hdisjoint a Hin Ha). }
    destruct (IH memo1 next1 rest' memo' next' Hmemo1 Hdrest E2) as [Hcrest Hgrow2].
    split.
    + cbn [map fst snd]. rewrite Hce, Hcrest. reflexivity.
    + intros a Ha. cbn [flat_map].
      destruct (Hgrow2 a Ha) as [H1 | Hin].
      * destruct (Hgrow1 a H1) as [H0 | Hin]; [left; exact H0 |].
        right. apply in_or_app. left. exact Hin.
      * right. apply in_or_app. right. exact Hin.
Qed.

Lemma assoc_loc_cons_grows (l a : loc) (copy : any) (memo : list (loc * any)) :
  assoc_loc a ((l, copy) :: memo) <> None -> a = l \/ assoc_loc a memo <> None.
Proof.
  cbn [assoc_loc]. destruct (Nat.eqb a l) eqn:E.
  - intros _. left. apply Nat.eqb_eq. exact E.
  - intro H. right. exact H.
Qed.

Lemma clone_content (v : any) : clone_keeps_content v.
Proof.
  induction v as [| | b | n | s | l elems IH | l props IH] using any_induction;
    unfold clone_keeps_content; intros memo next copy memo' next' Hmemo Hdup E;
    try (cbn in E; inversion E; subst;
         split; [reflexivity | intros a H; left; exact H]).
  - cbn [clone] in E. cbn [addresses] in Hmemo, Hdup.
    rewrite (Hmemo l (or_introl eq_refl)) in E.
    destruct (clone_elements clone elems memo (S next))
      as [[elems' memo1] next1] eqn:E1.
    inversion E; subst. clear E.
    inversion Hdup as [| x xs Hl Hrest]; subst.
    destruct (clone_elements_content elems IH memo (S next) elems' memo1 next'
                (fun a Ha => Hmemo a (or_intror Ha)) Hrest E1) as [Hc Hgrow].
    split.
    + cbn [content]. rewrite Hc. reflexivity.
    + intros a Ha. cbn [addresses].
      destruct (assoc_loc_cons_grows _ _ _ _ Ha) as [-> | H1].
      * right. left. reflexivity.
      * destruct (Hgrow a H1) as [H0 | Hin]; [left; exact H0 |].
        right. right. exact Hin.
  - cbn [clone] in E. cbn [addresses] in Hmemo, Hdup.
    rewrite (Hmemo l (or_introl eq_refl)) in E.
    destruct (clone_properties clone props memo (S next))
      as [[props' memo1] next1] eqn:E1.
    inversion E; subst. clear E.
    inversion Hdup as [| x xs Hl Hrest]; subst.
    destruct (clone_properties_content props IH memo (S next) props' memo1 next'
                (fun a Ha => Hmemo a (or_intror Ha)) Hrest E1) as [Hc Hgrow].
    split.
    + cbn [content]. rewrite Hc. reflexivity.
    + intros a Ha. cbn [addresses].
      destruct (assoc_loc_cons_grows _ _ _ _ Ha) as [-> | H1].
      * right. left. reflexivity.
      * destruct (Hgrow a H1) as [H0 | Hin]; [left; exact H0 |].
        right. right. exact Hin.
Qed.

(** A copy holds what the original holds, at addresses the original does
    not use. *)
Definition separate_copy_of (original copy : any) : Prop :=
  content copy = content original
  /\ forall a, In a (addresses copy) -> ~ In a (addresses original).

Lemma structuredClone_separate_copy (v : any) (next : loc) :
  within O next v -> NoDup (addresses v) ->
  separate_copy_of v (fst (structuredClone v next)).
Proof.
  intros Hwithin Hdup. unfold structuredClone.
  destruct (clone v [] next) as [[copy memo'] next'] eqn:E. cbn [fst].
  split.
  - exact (proj1 (clone_content v [] next copy memo' next'
                    (fun _ _ => eq_refl) Hdup E)).
  - intros a Ha Hv.
    destruct (clone_fresh next v [] next copy memo' next' (Nat.le_refl _)
                ltac:(intros l c []) E)
      as (_ & _ & Hcopy).
    specialize (Hcopy a Ha). specialize (Hwithin a Hv). lia.
Qed.

(** The array enforcer given nothing, and the object enforcer given
    [undefined], [null], a boolean or a number, return their default value
    as a copy: it holds what the default holds and shares no array or
    object with it, so that changing the result leaves the default as it
    was.  (The default is a tree of arrays and objects created before the
    call.) *)
Theorem default_value_is_copied (valueProperty : option string) (next : loc) :
  (forall (d : array_data) (value : any),
      let this := ArrayEnforcer.new (Some d) valueProperty in
      is_nullish (ValueTypeEnforcer.unwrap this value) = true ->
      within O next (array_value d) -> NoDup (addresses (array_value d)) ->
      separate_copy_of (array_value d)
        (fst (ArrayEnforcer.coerce this value next)))
  /\ (forall (d : object_data) (value : any),
         let this := ObjectEnforcer.new (Some d) valueProperty in
         match value with
         | VUndefined | VNull | VBool _ | VNum _ => True
         | _ => False
         end ->
         within O next (object_value d) -> NoDup (addresses (object_value d)) ->
         separate_copy_of (object_value d)
           (fst (ObjectEnforcer.coerce this value next))).
Proof.
  split.
  - intros d value this Hnullish Hwithin Hdup.
    unfold ArrayEnforcer.coerce.
    destruct (ValueTypeEnforcer.unwrap this value); try discriminate Hnullish;
      cbn [ValueTypeEnforcer.defaultValue this ArrayEnforcer.new is_nullish];
      apply structuredClone_separate_copy; assumption.
  - intros d value this Hvalue Hwithin Hdup.
    destruct value; try contradiction;
      unfold ObjectEnforcer.coerce;
      cbn [ValueTypeEnforcer.defaultValue this ObjectEnforcer.new];
      apply structuredClone_separate_copy; assumption.
Qed.

End DefaultsAreCopied.

(** ** The enforcer a type rule builds ([TypeKeywordRule], [TypeKeywordEnforcer]) *)

Section TypeRule.

(** Whatever keyword factory a [TypeKeywordRule] holds, the constraint it
    builds for a schema object checks the type and nothing else: the factory is run on the
    schema (and may throw), but the enforcer it returns is not kept.  The
    log is empty when the type enforcer accepts the target and holds one
    error of priority 100 otherwise; [coerce] is the type enforcer's. *)
Theorem type_rule_checks_the_type_only (this : TypeKeywordRule.t) (l : loc)
  (props : list (string * any)) (context : option KeywordEnforcerContext.t)
  (outcome : option KeywordConstraint) :
  let schema := VObj l props in
  own_name (TypeKeywordRule.keyword this) ->
  TypeKeywordRule.getEnforcerFor this schema context = Normal outcome ->
  exists constraint coerce,
    outcome = Some constraint
    /\ ValueConstraint.coerce constraint = Some coerce
    /\ (forall value next,
          coerce value next
          = TypeEnforcer.coerce (TypeKeywordRule.typeEnforcer this) value next)
    /\ forall target,
         ValueConstraint.validate constraint target
         = if TypeEnforcer.validate (TypeKeywordRule.typeEnforcer this) target
           then {| errors := [] |}
           else {| errors :=
                    [ {| KeywordError.keyword := Some (TypeKeywordRule.keyword this);
                         KeywordError.value :=
                           get_property schema (TypeKeywordRule.keyword this);
                         KeywordError.target := target;
                         KeywordError.priority := Some (of_Z 100);
                         KeywordError.coerce := Some coerce |} ] |}.
Proof.
  intros schema _. unfold TypeKeywordRule.getEnforcerFor. intro H.
  assert (Hbuilt :
            outcome
            = Some (TypeKeywordEnforcer.constraint
                      (TypeKeywordEnforcer.new
                         (TypeKeywordRule.keyword this)
                         (get_property schema (TypeKeywordRule.keyword this))
                         (fun value => TypeEnforcer.validate (TypeKeywordRule.typeEnforcer this) value)
                         (fun value => TypeEnforcer.coerce (TypeKeywordRule.typeEnforcer this) value)
                         None (Some (of_Z 100))))).
  { destruct (TypeKeywordRule.typedKeywords this) as [factory |].
    - destruct (SequentialKeywordEnforcerFactory.process factory schema _);
        [| discriminate H].
      injection H as <-. reflexivity.
    - injection H as <-. reflexivity. }
  rewrite Hbuilt. eexists. eexists. split; [reflexivity |].
  split; [reflexivity |]. split.
  - intros value next. unfold TypeKeywordEnforcer.coerce. cbn. unfold bind.
    destruct (TypeEnforcer.coerce _ value next). reflexivity.
  - intro target. cbn. unfold TypeKeywordEnforcer.validate. cbn.
    unfold KeywordValueEnforcer.validate. cbn.
    destruct (TypeEnforcer.validate _ target); reflexivity.
Qed.

Lemma type_rule_checks_the_type_only_witness :
  let rule :=
    {| TypeKeywordRule.keyword := "type";
       TypeKeywordRule.typeEnforcer := Boolean_enforcer (BooleanEnforcer.new None None);
       TypeKeywordRule.typedKeywords :=
         Some (SequentialKeywordEnforcerFactory.new
                 [JSONSchemaConstRule.rule (JSONSchemaConstRule.new None)]) |} in
  exists constraint,
    TypeKeywordRule.getEnforcerFor rule
      (VObj 20%nat [("type", VStr "boolean"); ("const", VBool true)]) None
    = Normal (Some constraint)
    /\ ValueConstraint.validate constraint (VBool false) = {| errors := [] |}.
Proof.
  intro rule.
  destruct (type_rule_checks_the_type_only rule
              20%nat [("type", VStr "boolean"); ("const", VBool true)] None
              _ eq_refl eq_refl)
    as (constraint & coerce & Houtcome & _ & _ & Hvalidate).
  exists constraint. split.
  - rewrite <- Houtcome. reflexivity.
  - rewrite Hvalidate. reflexivity.
Defined.

End TypeRule.

(** ** Schemas with a [type] name ([JSONSchemaTypeRule], [JSONSchemaEnforcerFactory]) *)

Section TypedSchemas.

(** Every rule of the default table has the keyword [type] and no keyword
    factory. *)
Lemma default_type_rule (name : string) (rule : TypeKeywordRule.t) :
  table_get default_type_rules name = Own rule ->
  TypeKeywordRule.keyword rule = "type"
  /\ TypeKeywordRule.typedKeywords rule = None.
Proof.
  unfold table_get, default_type_rules, createJSONSchemaTypeRules.
  cbn [assoc_get].
  repeat match goal with
         | |- context [String.eqb ?k name] => destruct (String.eqb k name)
         end;
    try (intro H; injection H as <-; split; reflexivity).
  destruct (existsb _ _); discriminate.
Qed.

(** What the default factory builds for a schema object whose [type] names
    a rule of the table and that has no [const]: the log of the type check,
    and the coercion of the type enforcer. *)
Lemma typed_schema_enforcer (l : loc) (props : list (string * any))
  (context : option KeywordEnforcerContext.t) (name : string)
  (rule : TypeKeywordRule.t) :
  get_property (VObj l props) "type" = VStr name ->
  get_property (VObj l props) "const" = VUndefined ->
  table_get default_type_rules name = Own rule ->
  exists enforcer coerce,
    JSONSchemaEnforcerFactory.process JSONSchemaEnforcerFactory.new
      (VObj l props) context = Normal enforcer
    /\ JSONSchemaEnforcerFactory.coerce enforcer = Some coerce
    /\ (forall value next,
          coerce value next
          = TypeEnforcer.coerce (TypeKeywordRule.typeEnforcer rule) value next)
    /\ forall target,
         map (fun error =>
                (KeywordError.keyword error, KeywordError.value error,
                 KeywordError.target error, KeywordError.priority error))
             (errors (JSONSchemaEnforcerFactory.validate enforcer target))
         = if TypeEnforcer.validate (TypeKeywordRule.typeEnforcer rule) target
           then []
           else [(Some "type", VStr name, target, Some (of_Z 100))].
Proof.
  intros Htype Hconst Hrule.
  destruct (default_type_rule name rule Hrule) as [Hkeyword Hfactory].
  unfold JSONSchemaEnforcerFactory.process.
  unfold SequentialKeywordEnforcerFactory.process.
  cbn [JSONSchemaEnforcerFactory.keywordHandler JSONSchemaEnforcerFactory.new
       SequentialKeywordEnforcerFactory.rules SequentialKeywordEnforcerFactory.new
       SequentialKeywordEnforcerFactory.validationParser
       SequentialKeywordEnforcerFactory.collect
       KeywordRule.getEnforcerFor JSONSchemaTypeRule.rule JSONSchemaConstRule.rule].
  unfold JSONSchemaTypeRule.getEnforcerFor.
  cbn [JSONSchemaTypeRule.keyword JSONSchemaTypeRule.typeRules JSONSchemaTypeRule.new].
  rewrite Htype. fold default_type_rules. rewrite Hrule.
  cbn [JSONSchemaTypeRule.call]. unfold TypeKeywordRule.getEnforcerFor.
  rewrite Hfactory, Hkeyword, Htype.
  unfold JSONSchemaConstRule.getEnforcerFor.
  cbn [JSONSchemaConstRule.keyword JSONSchemaConstRule.new].
  rewrite Hconst. cbn [strict_eq negb].
  eexists. eexists. split; [reflexivity |]. split; [reflexivity |]. split.
  - intros value next. cbn. unfold bind, TypeKeywordEnforcer.coerce. cbn. unfold bind.
    destruct (TypeEnforcer.coerce _ value next). reflexivity.
  - intro target. cbn. unfold mergeValidateSteps. cbn.
    unfold TypeKeywordEnforcer.validate. cbn.
    unfold KeywordValueEnforcer.validate. cbn.
    destruct (TypeEnforcer.validate _ target); reflexivity.
Qed.

(** What each type name of JSON schema accepts. *)
Definition accepted_by_type : list (string * (any -> bool)) :=
  [ ("any", fun _ => true);
    ("array", Array_isArray);
    ("boolean", fun v => String.eqb (typeof v) "boolean");
    ("integer",
      fun v => match v with
               | VNum n => num_strict_eq (num_rem n (of_Z 1)) (of_Z 0)
               | _ => false
               end);
    ("null", fun v => strict_eq v VNull);
    ("number", fun v => String.eqb (typeof v) "number");
    ("object",
      fun v => String.eqb (typeof v) "object" && negb (is_nullish v)
               && negb (Array_isArray v));
    ("string", fun v => String.eqb (typeof v) "string") ].

(** A schema object whose [type] is one of the eight names, and that has
    no [const], accepts a value exactly when the table above says so, and
    otherwise reports one error: keyword [type], the type name, the value,
    priority 100. *)
Theorem typed_schema_accepts (l : loc) (props : list (string * any))
  (context : option KeywordEnforcerContext.t) (name : string)
  (accepts : any -> bool) :
  get_property (VObj l props) "type" = VStr name ->
  get_property (VObj l props) "const" = VUndefined ->
  In (name, accepts) accepted_by_type ->
  exists enforcer,
    JSONSchemaEnforcerFactory.process JSONSchemaEnforcerFactory.new
      (VObj l props) context = Normal enforcer
    /\ forall target,
         map (fun error =>
                (KeywordError.keyword error, KeywordError.value error,
                 KeywordError.target error, KeywordError.priority error))
             (errors (JSONSchemaEnforcerFactory.validate enforcer target))
         = if accepts target then []
           else [(Some "type", VStr name, target, Some (of_Z 100))].
Proof.
  intros Htype Hconst Hin.
  assert (Hrule : exists rule,
             table_get default_type_rules name = Own rule
             /\ forall target,
                  TypeEnforcer.validate (TypeKeywordRule.typeEnforcer rule) target
                  = accepts target).
  { cbn in Hin.
    repeat (destruct Hin as [Hin | Hin];
            [injection Hin as <- <-; eexists; split; [reflexivity |];
             intro target; destruct target; reflexivity |]).
    contradiction. }
  destruct Hrule as (rule & Hrule & Haccepts).
  destruct (typed_schema_enforcer l props context name rule Htype Hconst Hrule)
    as (enforcer & coerce & Hprocess & _ & _ & Hvalidate).
  exists enforcer. split; [exact Hprocess |].
  intro target. rewrite Hvalidate, Haccepts. reflexivity.
Qed.

Lemma typed_schema_accepts_witness :
  exists enforcer,
    JSONSchemaEnforcerFactory.process JSONSchemaEnforcerFactory.new
      (VObj 20%nat [("type", VStr "integer")]) None = Normal enforcer
    /\ forall target,
         map (fun error =>
                (KeywordError.keyword error, KeywordError.value error,
                 KeywordError.target error, KeywordError.priority error))
             (errors (JSONSchemaEnforcerFactory.validate enforcer target))
         = if match target with
              | VNum n => num_strict_eq (num_rem n (of_Z 1)) (of_Z 0)
              | _ => false
              end
           then []
           else [(Some "type", VStr "integer", target, Some (of_Z 100))].
Proof.
  apply (typed_schema_accepts 20%nat [("type", VStr "integer")] None "integer"
           (fun v => match v with
                     | VNum n => num_strict_eq (num_rem n (of_Z 1)) (of_Z 0)
                     | _ => false
                     end)).
  - reflexivity.
  - reflexivity.
  - right. right. right. left. reflexivity.
Defined.







End TypedSchemas.

(** ** The expanded type of a value ([getExpandedTypeOf]) *)

Section ExpandedType.



End ExpandedType.

(** ** Constants that are not objects ([JSONSchemaConstRule]) *)

Section PrimitiveConstants.

Definition is_primitive (v : any) : bool :=
  match v with VArr _ _ | VObj _ _ => false | _ => true end.

(** A schema object with a [const] that is neither an object nor an array
    nor [undefined], and with no [type], accepts exactly the values that
    are [===] to the constant; its coercion returns the constant whatever
    the input and creates nothing. *)
Theorem primitive_const_schema (l : loc) (props : list (string * any))
  (context : option KeywordEnforcerContext.t) (constant : any) :
  get_property (VObj l props) "type" = VUndefined ->
  get_property (VObj l props) "const" = constant ->
  is_primitive constant = true ->
  constant <> VUndefined ->
  exists enforcer coerce,
    JSONSchemaEnforcerFactory.process JSONSchemaEnforcerFactory.new
      (VObj l props) context = Normal enforcer
    /\ JSONSchemaEnforcerFactory.coerce enforcer = Some coerce
    /\ (forall value next, coerce value next = (constant, next))
    /\ forall target,
         errors (JSONSchemaEnforcerFactory.validate enforcer target) = []
         <-> strict_eq target constant = true.
Proof.
  intros Htype Hconst Hprimitive Hdefined.
  assert (Hnot : strict_eq constant VUndefined = false)
    by (destruct constant; try reflexivity; congruence).
  unfold JSONSchemaEnforcerFactory.process.
  unfold SequentialKeywordEnforcerFactory.process.
  cbn [JSONSchemaEnforcerFactory.keywordHandler JSONSchemaEnforcerFactory.new
       SequentialKeywordEnforcerFactory.rules SequentialKeywordEnforcerFactory.new
       SequentialKeywordEnforcerFactory.validationParser
       SequentialKeywordEnforcerFactory.collect
       KeywordRule.getEnforcerFor JSONSchemaTypeRule.rule JSONSchemaConstRule.rule].
  unfold JSONSchemaTypeRule.getEnforcerFor.
  cbn [JSONSchemaTypeRule.keyword JSONSchemaTypeRule.typeRules JSONSchemaTypeRule.new].
  rewrite Htype.
  unfold JSONSchemaConstRule.getEnforcerFor.
  cbn [JSONSchemaConstRule.keyword JSONSchemaConstRule.new].
  rewrite Hconst, Hnot. cbn [negb].
  eexists. eexists. split; [reflexivity |]. split; [reflexivity |]. split.
  - intros value next. cbn. unfold bind.
    destruct constant; try discriminate Hprimitive; reflexivity.
  - intro target. cbn. unfold mergeValidateSteps. cbn.
    unfold KeywordValueEnforcer.validate. cbn.
    rewrite isEquivalentTo_primitive.
    + destruct (strict_eq target constant); cbn; split; congruence.
    + unfold both_objects. destruct constant; try discriminate Hprimitive;
        cbn; rewrite ?andb_false_r; reflexivity.
Qed.

Lemma primitive_const_schema_witness :
  exists enforcer coerce,
    JSONSchemaEnforcerFactory.process JSONSchemaEnforcerFactory.new
      (VObj 20%nat [("const", VStr "a")]) None = Normal enforcer
    /\ JSONSchemaEnforcerFactory.coerce enforcer = Some coerce
    /\ (forall value next, coerce value next = (VStr "a", next))
    /\ forall target,
         errors (JSONSchemaEnforcerFactory.validate enforcer target) = []
         <-> strict_eq target (VStr "a") = true.
Proof.
  apply (primitive_const_schema 20%nat [("const", VStr "a")] None (VStr "a"));
    try reflexivity.
  discriminate.
Defined.

End PrimitiveConstants.

(** ** What the sequential factory collects ([SequentialKeywordEnforcerFactory.process]) *)

Section Collected.

Variable schema : any.
Variable context : KeywordEnforcerContext.t.






End Collected.



(** ** Choosing among options ([SchemaOptionsParser.getMostValidOption]) *)

Section MostValidOption.

Context {Enforcer ValidationType : Type}.
Variable validate : Enforcer -> any -> ValidationType.
Variable validationParser : ValidationParser.t ValidationType.
Variable value : any.

(** The rating of an option for [value]. *)
Definition rating (option : LabeledValue.t Enforcer) : number :=
  ValidationParser.rateValidity validationParser
    (validate (LabeledValue.value option) value).

(** [best] is the first of [options] whose rating no other exceeds: the
    options before it rate lower or rate [NaN], those after it do not rate
    higher. *)
Definition first_maximum (options : list (LabeledValue.t Enforcer))
  (best : LabeledValue.t Enforcer) : Prop :=
  exists before after,
    options = (before ++ best :: after)%list
    /\ num_gt (rating best) NEGATIVE_INFINITY = true
    /\ (forall o, In o before ->
          num_gt (rating best) (rating o) = true \/ isNaN (rating o) = true)
    /\ (forall o, In o after -> num_gt (rating o) (rating best) = false).

(** No option rates above minus infinity. *)
Definition none_rates (options : list (LabeledValue.t Enforcer)) : Prop :=
  forall o, In o options -> num_gt (rating o) NEGATIVE_INFINITY = false.

Definition chosen (options : list (LabeledValue.t Enforcer))
  (result : option (LabeledValue.t Enforcer)) : Prop :=
  match result with
  | Some best => first_maximum options best
  | None => none_rates options
  end.

Lemma num_gt_NaN_r (a b : number) : num_gt a b = true -> isNaN a = false.
Proof. unfold num_gt. intro H. apply (num_lt_not_NaN _ _ H). Qed.

(** The loop, started on the options [seen] so far with the choice made
    among them, ends on the choice among all of them. *)
Lemma scan_chooses (options : list (LabeledValue.t Enforcer)) :
  forall (seen : list (LabeledValue.t Enforcer))
         (bestOption : option (LabeledValue.t Enforcer)) (maxValidity : number),
    chosen seen bestOption ->
    maxValidity = match bestOption with
                  | Some best => rating best
                  | None => NEGATIVE_INFINITY
                  end ->
    chosen (seen ++ options)%list
      (SchemaOptionsParser.scan validate validationParser options value
         bestOption maxValidity).
Proof.
  induction options as [| o rest IH]; intros seen bestOption maxValidity Hchosen Hmax.
  - rewrite app_nil_r. exact Hchosen.
  - cbn [SchemaOptionsParser.scan]. fold (rating o).
    replace (seen ++ o :: rest)%list with ((seen ++ [o]) ++ rest)%list
      by (rewrite <- app_assoc; reflexivity).
    destruct (num_gt (rating o) maxValidity) eqn:Hgt.
    + apply IH; [| reflexivity]. cbn [chosen].
      exists seen, []. split; [reflexivity |]. subst maxValidity.
      destruct bestOption as [best |].
      * destruct Hchosen as (before & after & -> & Hrates & Hbefore & Hafter).
        assert (Ho : isNaN (rating o) = false)
          by (apply (num_gt_NaN_r _ _ Hgt)).
        split; [| split; [| intros ? []]].
        -- unfold num_gt in *. eapply num_lt_le_trans;
             [exact Hrates | | exact Ho].
           apply num_lt_asym. exact Hgt.
        -- intros x Hin. apply in_app_or in Hin.
           destruct Hin as [Hin | [<- | Hin]].
           ++ destruct (Hbefore x Hin) as [Hlower | Hnan]; [| right; exact Hnan].
              left. unfold num_gt in *.
              eapply num_lt_le_trans; [exact Hlower | | exact Ho].
              apply num_lt_asym. exact Hgt.
           ++ left. exact Hgt.
           ++ specialize (Hafter x Hin).
              destruct (isNaN (rating x)) eqn:Hx; [right; reflexivity |].
              left. unfold num_gt in *.
              destruct (num_lt (rating x) (rating o)) eqn:E; [reflexivity |].
              pose proof (num_le_trans _ _ _ Hx E Hafter) as Hcontra.
              congruence.
      * split; [exact Hgt |]. split; [| intros ? []].
        intros x Hin. specialize (Hchosen x Hin).
        destruct (isNaN (rating x)) eqn:Hx; [right; reflexivity |].
        left. unfold num_gt in *.
        destruct (num_lt (rating x) (rating o)) eqn:E; [reflexivity |].
        assert (Hinf : num_lt NEGATIVE_INFINITY (rating x) = true).
        { eapply num_lt_le_trans; [exact Hgt | exact E | exact Hx]. }
        congruence.
    + apply IH; [| exact Hmax]. subst maxValidity.
      destruct bestOption as [best |]; cbn [chosen] in *.
      * destruct Hchosen as (before & after & -> & Hrates & Hbefore & Hafter).
        exists before, (after ++ [o])%list.
        split; [rewrite <- app_assoc; reflexivity |].
        split; [exact Hrates |]. split; [exact Hbefore |].
        intros x Hin. apply in_app_or in Hin.
        destruct Hin as [Hin | [<- | []]]; [apply Hafter; exact Hin | exact Hgt].
      * intros x Hin. apply in_app_or in Hin.
        destruct Hin as [Hin | [<- | []]]; [apply Hchosen; exact Hin | exact Hgt].
Qed.

(** [getMostValidOption] returns the first option of highest rating, an
    option rated [NaN] or minus infinity never being returned; it returns
    nothing exactly when no option rates above minus infinity, as when
    there is no option at all. *)
Theorem getMostValidOption_first_maximum (options : list (LabeledValue.t Enforcer)) :
  chosen options
    (SchemaOptionsParser.getMostValidOption validate validationParser options value).
Proof.
  unfold SchemaOptionsParser.getMostValidOption.
  apply (scan_chooses options [] None NEGATIVE_INFINITY); [| reflexivity].
  intros o [].
Qed.

End MostValidOption.

(** ** Choosing by keyword error logs *)

Section FirstValidOption.

Lemma value_of_num_neg (x : number) :
  value_of (num_neg x)
  = match value_of x with
    | NaN => NaN
    | PosInf => NegInf
    | NegInf => PosInf
    | Fin q => Fin (- q)%Q
    end.
Proof.
  unfold value_of, num_neg. rewrite opp_spec.
  destruct (Prim2SF x) as [s | s | | s m e]; cbn [SFopp].
  - reflexivity.
  - destruct s; reflexivity.
  - reflexivity.
  - destruct s; cbn [negb]; [| reflexivity].
    f_equal. destruct (inject_Z (Zpos m) * Qpow2 e)%Q as [a b].
    unfold Qopp. cbn [Qnum Qden]. rewrite Z.opp_involutive. reflexivity.
Qed.

(** The rating of a keyword log: 1 when it has no error, and otherwise a
    number that is not [NaN] and is at most 0. *)
Lemma keyword_log_rating (log : KeywordErrorLog) :
  match errors log with
  | [] => KeywordErrorLogValidationParser.rateValidity log = of_Z 1
  | _ :: _ =>
      num_lt (KeywordErrorLogValidationParser.rateValidity log) (of_Z 1) = true
  end.
Proof.
  destruct log as [errs]. cbn [errors].
  destruct errs as [| first rest] eqn:E; [reflexivity |]. rewrite <- E.
  destruct (max_loop_spec errs (of_Z 0) eq_refl) as (Hnan & Hge & _).
  unfold KeywordErrorLogValidationParser.rateValidity. cbn [errors].
  replace (list_length errs >? 0) with true
    by (rewrite E; unfold list_length; cbn [List.length]; symmetry;
        apply Z.gtb_lt; lia).
  fold raise_priority.
  set (m := fold_left raise_priority errs (of_Z 0)) in *.
  unfold num_lt, isNaN in *. rewrite value_of_num_neg.
  change (value_of (of_Z 0)) with (Fin 0%Q) in Hge.
  destruct (value_of m) as [| | | q]; try discriminate; try reflexivity.
  apply Qlt_bool_false_iff in Hge.
  match goal with
  | |- match ?one with _ => _ end = true =>
      let y := eval vm_compute in one in change one with y
  end.
  apply Qlt_bool_iff.
  apply Qle_lt_trans with 0%Q.
  - apply (Qopp_le_compat 0 q) in Hge. exact Hge.
  - reflexivity.
Qed.

Context {Enforcer : Type}.
Variable validate : Enforcer -> any -> KeywordErrorLog.
Variable value : any.

Definition option_passes (option : LabeledValue.t Enforcer) : Prop :=
  errors (validate (LabeledValue.value option) value) = [].

Lemma scan_keeps_valid (options : list (LabeledValue.t Enforcer))
  (best : LabeledValue.t Enforcer) :
  SchemaOptionsParser.scan validate KeywordErrorLogValidationParser.new
    options value (Some best) (of_Z 1)
  = Some best.
Proof.
  induction options as [| o rest IH]; [reflexivity |].
  cbn [SchemaOptionsParser.scan ValidationParser.rateValidity
       KeywordErrorLogValidationParser.new].
  pose proof (keyword_log_rating (validate (LabeledValue.value o) value)) as H.
  destruct (errors (validate (LabeledValue.value o) value)).
  - rewrite H. change (num_gt (of_Z 1) (of_Z 1)) with false. exact IH.
  - unfold num_gt. rewrite (num_lt_asym _ _ H). exact IH.
Qed.

Lemma scan_reaches_valid (before : list (LabeledValue.t Enforcer)) :
  Forall (fun o => ~ option_passes o) before ->
  forall (o : LabeledValue.t Enforcer) (after : list (LabeledValue.t Enforcer))
         (bestOption : option (LabeledValue.t Enforcer)) (maxValidity : number),
    option_passes o ->
    num_lt maxValidity (of_Z 1) = true ->
    SchemaOptionsParser.scan validate KeywordErrorLogValidationParser.new
      (before ++ o :: after)%list value bestOption maxValidity
    = Some o.
Proof.
  induction 1 as [| x before Hx _ IH]; intros o after bestOption maxValidity Ho Hmax.
  - cbn [app SchemaOptionsParser.scan ValidationParser.rateValidity
         KeywordErrorLogValidationParser.new].
    pose proof (keyword_log_rating (validate (LabeledValue.value o) value)) as H.
    unfold option_passes in Ho. rewrite Ho in H. rewrite H.
    unfold num_gt. rewrite Hmax. apply scan_keeps_valid.
  - cbn [app SchemaOptionsParser.scan ValidationParser.rateValidity
         KeywordErrorLogValidationParser.new].
    pose proof (keyword_log_rating (validate (LabeledValue.value x) value)) as H.
    unfold option_passes in Hx.
    destruct (errors (validate (LabeledValue.value x) value)); [congruence |].
    destruct (num_gt _ maxValidity); apply IH; assumption.
Qed.

(** With keyword error logs rated by [KeywordErrorLogValidationParser], the
    option returned is the first one whose validation reports no error,
    when there is one: a log without error rates 1 and every other log at
    most 0. *)
Theorem first_valid_option_is_chosen
  (before after : list (LabeledValue.t Enforcer)) (o : LabeledValue.t Enforcer) :
  Forall (fun x => ~ option_passes x) before ->
  option_passes o ->
  SchemaOptionsParser.getMostValidOption validate
    KeywordErrorLogValidationParser.new (before ++ o :: after)%list value
  = Some o.
Proof.
  intros Hbefore Ho. unfold SchemaOptionsParser.getMostValidOption.
  apply scan_reaches_valid; [exact Hbefore | exact Ho | reflexivity].
Qed.

End FirstValidOption.

Lemma first_valid_option_is_chosen_witness :
  let failing :=
    {| LabeledValue.label := "failing";
       LabeledValue.value := constant_branch (log_of_priorities [100]) |} in
  let passing :=
    {| LabeledValue.label := "passing";
       LabeledValue.value := constant_branch (log_of_priorities []) |} in
  let later :=
    {| LabeledValue.label := "later";
       LabeledValue.value := constant_branch (log_of_priorities []) |} in
  SchemaOptionsParser.getMostValidOption ValueConstraint.validate
    KeywordErrorLogValidationParser.new ([failing] ++ passing :: [later])%list VNull
  = Some passing.
Proof.
  intros failing passing later.
  apply (first_valid_option_is_chosen ValueConstraint.validate VNull
           [failing] [later] passing).
  - constructor; [| constructor]. unfold option_passes. cbn. discriminate.
  - reflexivity.
Defined.

(** ** The options of the schema [true] *)

Section AnyValueOptions.


End AnyValueOptions.


(** ** Labels ([KeyedSchemaLabeler], [JSONSchemaLabeler]) *)

Section Labels.

(** A keyword the labeler passes over: the schema has no such property, or
    the property holds an empty array. *)
Definition gives_no_label (source : any) (keyword : string) : Prop :=
  has_property source keyword = false
  \/ exists l, get_property source keyword = VArr l [].

Definition translated (this : KeyedSchemaLabeler.t) (text : string) : string :=
  match KeyedSchemaLabeler.translate this with
  | Some translate => translate text
  | None => text
  end.

Lemma process_keywords_skips (this : KeyedSchemaLabeler.t) (source : any)
  (before rest : list string) :
  Forall (gives_no_label source) before ->
  KeyedSchemaLabeler.process_keywords this (before ++ rest)%list source
  = KeyedSchemaLabeler.process_keywords this rest source.
Proof.
  induction 1 as [| keyword before Hkeyword _ IH]; [reflexivity |].
  cbn [app KeyedSchemaLabeler.process_keywords].
  destruct Hkeyword as [-> | [l ->]]; [exact IH |].
  destruct (has_property source keyword); exact IH.
Qed.

(** The label of a schema object comes from the first keyword of the list
    that the object has with a value other than an empty array: the
    elements of an array value, each made a string and translated, joined
    by the delimiter; any other value made a string and translated.  When
    no keyword gives a label, the label is the schema itself made a
    string. *)
Theorem label_from_first_keyword (this : KeyedSchemaLabeler.t) (l : loc)
  (props : list (string * any)) :
  Forall own_name (KeyedSchemaLabeler.keywords this) ->
  let source := VObj l props in
  (forall before keyword after,
      KeyedSchemaLabeler.keywords this = (before ++ keyword :: after)%list ->
      Forall (gives_no_label source) before ->
      has_property source keyword = true ->
      KeyedSchemaLabeler.process this source
      = match get_property source keyword with
        | VArr _ [] =>
            KeyedSchemaLabeler.process_keywords this after source
        | VArr _ elems =>
            join (KeyedSchemaLabeler.delimiter this)
              (map (translated this)
                 (map (KeyedSchemaLabeler.stringify this) elems))
        | value => translated this (KeyedSchemaLabeler.stringify this value)
        end)
  /\ (Forall (gives_no_label source) (KeyedSchemaLabeler.keywords this) ->
      KeyedSchemaLabeler.process this source
      = KeyedSchemaLabeler.stringify this source).
Proof.
  intros _ source. split.
  - intros before keyword after Hkeywords Hbefore Hhas.
    unfold KeyedSchemaLabeler.process. rewrite Hkeywords.
    rewrite process_keywords_skips by exact Hbefore.
    cbn [KeyedSchemaLabeler.process_keywords]. rewrite Hhas.
    unfold translated.
    destruct (get_property source keyword) as [| | b | n | s | la elems | lo ps];
      try reflexivity.
    cbn [Array_isArray array_elements].
    destruct elems as [| e es]; [reflexivity |].
    unfold list_length. cbn [map List.length].
    replace (Z.of_nat (S (List.length (map (KeyedSchemaLabeler.stringify this) es))) <? 1)
      with false by (symmetry; apply Z.ltb_ge; lia).
    destruct (KeyedSchemaLabeler.translate this); [reflexivity |].
    rewrite map_id. reflexivity.
  - intro Hall. unfold KeyedSchemaLabeler.process.
    rewrite <- (app_nil_r (KeyedSchemaLabeler.keywords this)).
    rewrite process_keywords_skips by exact Hall. reflexivity.
Qed.

End Labels.

Lemma label_from_first_keyword_witness :
  KeyedSchemaLabeler.process
    (KeyedSchemaLabeler.new (Some ["title"; "type"]) None None)
    (VObj 20%nat [("type", VArr 21%nat [VStr "boolean"; VStr "string"])])
  = "boolean/string".
Proof.
  destruct (label_from_first_keyword
              (KeyedSchemaLabeler.new (Some ["title"; "type"]) None None) 20%nat
              [("type", VArr 21%nat [VStr "boolean"; VStr "string"])])
    as [H _].
  - constructor; [reflexivity |]. constructor; [reflexivity | constructor].
  - rewrite (H ["title"] "type" [] eq_refl).
    + reflexivity.
    + constructor; [left; reflexivity | constructor].
    + reflexivity.
Defined.


(** ** Schemas with an array of type names *)

Section TypeArrays.

Variable schema : any.
Variable context : option KeywordEnforcerContext.t.





End TypeArrays.








(** ** The options of an [enum] *)

Section EnumOptions.

(** A member of an [enum] that is [null], a boolean, a number or a
    string. *)
Definition constant_member (m : any) : Prop :=
  is_primitive m = true /\ m <> VUndefined.

(** The option for one member: labeled by the member as a string, it
    accepts the values that are [===] to the member and coerces every
    value to the member. *)
Definition is_option_for (o : LabeledValue.t JSONSchemaEnforcerFactory.enforcer)
  (m : any) : Prop :=
  LabeledValue.label o = ToString m
  /\ (forall target,
        errors (JSONSchemaEnforcerFactory.validate (LabeledValue.value o) target) = []
        <-> strict_eq target m = true)
  /\ exists coerce,
       JSONSchemaEnforcerFactory.coerce (LabeledValue.value o) = Some coerce
       /\ forall value next, coerce value next = (m, next).

Lemma const_object_label (n : loc) (m : any) :
  constant_member m ->
  JSONSchemaLabeler.process (JSONSchemaLabeler.new None) (VObj n [("const", m)])
  = ToString m.
Proof.
  intros [Hprimitive _].
  destruct m; try discriminate Hprimitive; reflexivity.
Qed.

Lemma const_object_enforcer (n : loc) (m : any) :
  constant_member m ->
  exists enforcer coerce,
    JSONSchemaEnforcerFactory.process JSONSchemaEnforcerFactory.new
      (VObj n [("const", m)]) None = Normal enforcer
    /\ JSONSchemaEnforcerFactory.coerce enforcer = Some coerce
    /\ (forall value next, coerce value next = (m, next))
    /\ forall target,
         errors (JSONSchemaEnforcerFactory.validate enforcer target) = []
         <-> strict_eq target m = true.
Proof.
  intros [Hprimitive Hdefined].
  assert (Hnot : strict_eq m VUndefined = false)
    by (destruct m; try reflexivity; congruence).
  unfold JSONSchemaEnforcerFactory.process.
  unfold SequentialKeywordEnforcerFactory.process.
  cbn [JSONSchemaEnforcerFactory.keywordHandler JSONSchemaEnforcerFactory.new
       SequentialKeywordEnforcerFactory.rules SequentialKeywordEnforcerFactory.new
       SequentialKeywordEnforcerFactory.validationParser
       SequentialKeywordEnforcerFactory.collect
       KeywordRule.getEnforcerFor JSONSchemaTypeRule.rule JSONSchemaConstRule.rule].
  unfold JSONSchemaTypeRule.getEnforcerFor.
  cbn [JSONSchemaTypeRule.keyword JSONSchemaTypeRule.typeRules JSONSchemaTypeRule.new].
  change (get_property (VObj n [("const", m)]) "type") with VUndefined.
  unfold JSONSchemaConstRule.getEnforcerFor.
  cbn [JSONSchemaConstRule.keyword JSONSchemaConstRule.new].
  change (get_property (VObj n [("const", m)]) "const") with m.
  rewrite Hnot. cbn [negb].
  eexists. eexists. split; [reflexivity |]. split; [reflexivity |]. split.
  - intros value next. cbn. unfold bind.
    destruct m; try discriminate Hprimitive; reflexivity.
  - intro target. cbn. unfold mergeValidateSteps. cbn.
    unfold KeywordValueEnforcer.validate. cbn.
    rewrite isEquivalentTo_primitive.
    + destruct (strict_eq target m); cbn; split; congruence.
    + unfold both_objects. destruct m; try discriminate Hprimitive;
        cbn; rewrite ?andb_false_r; reflexivity.
Qed.

Lemma options_of_constants
  (this : SchemaOptionsFactory.t JSONSchemaEnforcerFactory.enforcer) :
  SchemaOptionsFactory.labelFactory this
  = JSONSchemaLabeler.process (JSONSchemaLabeler.new None) ->
  SchemaOptionsFactory.enforcerFactory this
  = (fun source =>
       JSONSchemaEnforcerFactory.process JSONSchemaEnforcerFactory.new source None) ->
  forall (members : list any) (next : loc),
    Forall constant_member members ->
    exists options,
      SchemaOptionsFactory.options_of this (single_key_objects "const" members next)
      = Normal options
      /\ Forall2 is_option_for options members.
Proof.
  intros Hlabel Henforcer.
  induction members as [| m rest IH]; intros next Hmembers.
  - exists []. split; [reflexivity | constructor].
  - inversion Hmembers as [| m' rest' Hm Hrest]; subst.
    destruct (IH (S next) Hrest) as (options & Hoptions & Hall).
    destruct (const_object_enforcer next m Hm)
      as (enforcer & coerce & Hprocess & Hcoerce & Hconstant & Hvalidate).
    cbn [single_key_objects SchemaOptionsFactory.options_of].
    rewrite Henforcer, Hprocess, Hoptions, Hlabel.
    eexists. split; [reflexivity |].
    constructor; [| exact Hall].
    split; [apply const_object_label; exact Hm |].
    split; [exact Hvalidate |].
    exists coerce. split; [exact Hcoerce | exact Hconstant].
Qed.

(** For a schema object whose [enum] is an array of constants ([null],
    booleans, numbers, strings), a new [JSONSchemaOptionsFactory] gives one
    option per member, in order: labeled by the member as a string,
    accepting exactly the values [===] to the member, coercing every value
    to it.  The most valid option for a value that is a member is the
    option of the first member [===] to it. *)
Theorem enum_options (l : loc) (props : list (string * any)) (le : loc)
  (members : list any) :
  get_property (VObj l props) "enum" = VArr le members ->
  Forall constant_member members ->
  exists options,
    options_for (ret (VObj l props)) = Normal options
    /\ Forall2 is_option_for options members
    /\ forall target before m after,
         members = (before ++ m :: after)%list ->
         Forall (fun x => strict_eq target x = false) before ->
         strict_eq target m = true ->
         exists best,
           SchemaOptionsParser.getMostValidOption
             JSONSchemaEnforcerFactory.validate
             KeywordErrorLogValidationParser.new options target
           = Some best
           /\ is_option_for best m.
Proof.
  intros Henum Hmembers.
  unfold options_for, bind, ret.
  destruct (JSONSchemaOptionsFactory.new None first_free_address)
    as [factory next] eqn:Hfactory.
  unfold JSONSchemaOptionsFactory.new, bind, ret in Hfactory.
  destruct (JSONSchemaSplitter.new None None first_free_address)
    as [splitter next'] eqn:Hsplitter.
  injection Hfactory as <- <-.
  unfold JSONSchemaSplitter.new, bind, ret in Hsplitter.
  destruct (structuredClone (get_property ANY_VALUE_JSON_SCHEMA "oneOf")
              first_free_address) as [copy next''].
  injection Hsplitter as <- <-.
  unfold SchemaOptionsFactory.process, bind, ret.
  cbn [SchemaOptionsFactory.splitter].
  unfold JSONSchemaSplitter.process.
  cbn [JSONSchemaSplitter.enumKey String.eqb Ascii.eqb negb andb].
  rewrite Henum. cbn [Array_isArray array_elements andb].
  rewrite map_alloc_single_key. cbn [fst].
  match goal with
  | |- context [SchemaOptionsFactory.options_of ?f _] =>
      destruct (options_of_constants f eq_refl eq_refl members next'' Hmembers)
        as (options & Hoptions & Hall)
  end.
  rewrite Hoptions. exists options. split; [reflexivity |].
  split; [exact Hall |].
  intros target before m after Hsplit Hbefore Hm. subst members.
  apply Forall2_app_inv_r in Hall.
  destruct Hall as (ob & orest & Hob & Horest & ->).
  inversion Horest as [| o m' oa after' Ho Hoa]; subst.
  exists o. split; [| exact Ho].
  unfold SchemaOptionsParser.getMostValidOption.
  apply scan_reaches_valid.
  - clear - Hob Hbefore. induction Hob as [| x y xs ys Hxy _ IH]; [constructor |].
    inversion Hbefore; subst. constructor; [| apply IH; assumption].
    destruct Hxy as (_ & Hvalid & _). unfold option_passes. intro Hpass.
    apply Hvalid in Hpass. congruence.
  - destruct Ho as (_ & Hvalid & _). unfold option_passes. apply Hvalid. exact Hm.
  - reflexivity.
Qed.

Lemma enum_options_witness :
  exists options,
    options_for (ret (VObj 20%nat [("enum", VArr 21%nat [VStr "a"; num 1])]))
    = Normal options
    /\ Forall2 is_option_for options [VStr "a"; num 1]
    /\ forall target before m after,
         [VStr "a"; num 1] = (before ++ m :: after)%list ->
         Forall (fun x => strict_eq target x = false) before ->
         strict_eq target m = true ->
         exists best,
           SchemaOptionsParser.getMostValidOption
             JSONSchemaEnforcerFactory.validate
             KeywordErrorLogValidationParser.new options target
           = Some best
           /\ is_option_for best m.
Proof.
  apply (enum_options 20%nat [("enum", VArr 21%nat [VStr "a"; num 1])] 21%nat
           [VStr "a"; num 1]).
  - reflexivity.
  - constructor; [split; [reflexivity | discriminate] |].
    constructor; [split; [reflexivity | discriminate] | constructor].
Defined.

(** The one option for the schema [false] is [NO_VALUE_JSON_SCHEMA], whose
    [allOf] no rule reads: while the enforcer of [false] itself rejects
    every value, the option offered for it accepts every value. *)
Theorem false_schema_option_accepts_everything :
  exists option,
    options_for (ret (VBool false)) = Normal [option]
    /\ LabeledValue.label option = "NO_VALUE_JSON_SCHEMA"
    /\ JSONSchemaEnforcerFactory.schema (LabeledValue.value option)
       = NO_VALUE_JSON_SCHEMA
    /\ (forall value,
          JSONSchemaEnforcerFactory.validate (LabeledValue.value option) value
          = {| errors := [] |})
    /\ exists enforcer,
         JSONSchemaEnforcerFactory.process JSONSchemaEnforcerFactory.new
           (VBool false) None = Normal enforcer
         /\ forall value,
              errors (JSONSchemaEnforcerFactory.validate enforcer value) <> [].
Proof.
  eexists. split; [reflexivity |]. split; [reflexivity |].
  split; [reflexivity |]. split; [reflexivity |].
  eexists. split; [reflexivity |]. intro value. discriminate.
Qed.

End EnumOptions.
